(** * Verification of the repo-authored logic of openai-agents-blueprints

    The repository is a corpus of tutorial scripts around an agents SDK.
    What the scripts own themselves is embedded below: the API-key check,
    the routing, guardrail, retry, security-wrapper, history-filter,
    key-validation, length-validation, e-mail and summary functions.
    The SDK's [Runner] is an oracle that is scripted per call. *)

From Stdlib Require Import ZArith QArith String Ascii List Bool Lia.
From stdpp Require Import gmap strings list pretty.
Import ListNotations.

Local Open Scope string_scope.
Local Open Scope Z_scope.

(** ** Python values shared by the scripts *)

(** Python strings are modelled by [string] (8-bit characters); the
    classifications below are Python's on the ASCII range. *)
Module PyStr.

(** [len(s)] *)
Definition len (s : string) : Z := Z.of_nat (String.length s).

(** [s.startswith(p)] *)
Fixpoint startswith (s p : string) : bool :=
  match p, s with
  | EmptyString, _ => true
  | String _ _, EmptyString => false
  | String a p', String b s' => Ascii.eqb a b && startswith s' p'
  end.

(** [needle in hay] *)
Fixpoint contains (needle hay : string) : bool :=
  startswith hay needle ||
  match hay with
  | EmptyString => false
  | String _ hay' => contains needle hay'
  end.

Definition is_upper (c : ascii) : bool :=
  (65 <=? nat_of_ascii c)%nat && (nat_of_ascii c <=? 90)%nat.
Definition is_lower (c : ascii) : bool :=
  (97 <=? nat_of_ascii c)%nat && (nat_of_ascii c <=? 122)%nat.
Definition is_digit (c : ascii) : bool :=
  (48 <=? nat_of_ascii c)%nat && (nat_of_ascii c <=? 57)%nat.
Definition is_alpha (c : ascii) : bool := is_upper c || is_lower c.

(** [str.isspace] on one character: tab .. carriage return, the four
    separators 0x1c .. 0x1f, and the blank. *)
Definition is_space (c : ascii) : bool :=
  let n := nat_of_ascii c in
  ((9 <=? n)%nat && (n <=? 13)%nat) || ((28 <=? n)%nat && (n <=? 32)%nat).

Definition lower_char (c : ascii) : ascii :=
  if is_upper c then ascii_of_nat (nat_of_ascii c + 32) else c.

(** [s.lower()] *)
Fixpoint lower (s : string) : string :=
  match s with
  | EmptyString => EmptyString
  | String c s' => String (lower_char c) (lower s')
  end.

(** [s[n:]] for a non-negative [n] *)
Fixpoint drop (n : nat) (s : string) : string :=
  match n, s with
  | O, _ => s
  | S _, EmptyString => EmptyString
  | S k, String _ s' => drop k s'
  end.

(** [s[:n]] for a non-negative [n] *)
Fixpoint take (n : nat) (s : string) : string :=
  match n, s with
  | O, _ => EmptyString
  | S _, EmptyString => EmptyString
  | S k, String c s' => String c (take k s')
  end.

(** [s * n] *)
Fixpoint repeat_str (s : string) (n : nat) : string :=
  match n with
  | O => EmptyString
  | S k => s ++ repeat_str s k
  end.

Definition mul (s : string) (n : Z) : string := repeat_str s (Z.to_nat n).

(** [s[-1]] when there is one *)
Fixpoint last_char (s : string) : option ascii :=
  match s with
  | EmptyString => None
  | String c EmptyString => Some c
  | String _ s' => last_char s'
  end.

(** [sep.join(parts)] *)
Fixpoint join (sep : string) (parts : list string) : string :=
  match parts with
  | [] => EmptyString
  | [p] => p
  | p :: rest => p ++ sep ++ join sep rest
  end.

(** Non-overlapping left-to-right replacement of a non-empty [old];
    [skip] counts the characters of a match still to be passed over. *)
Fixpoint replace_from (old new : string) (skip : nat) (s : string) : string :=
  match s with
  | EmptyString => EmptyString
  | String c s' =>
      match skip with
      | S k => replace_from old new k s'
      | O =>
          if startswith s old
          then new ++ replace_from old new (String.length old - 1) s'
          else String c (replace_from old new O s')
      end
  end.

(** With an empty [old], Python inserts [new] before every character
    and once more at the end. *)
Fixpoint intersperse (new s : string) : string :=
  match s with
  | EmptyString => new
  | String c s' => new ++ String c (intersperse new s')
  end.

(** [s.replace(old, new)] *)
Definition replace (s old new : string) : string :=
  match old with
  | EmptyString => intersperse new s
  | String _ _ => replace_from old new O s
  end.

(** Number of fields of [s.split()]: maximal runs of non-space
    characters.  [inword] tells whether the previous character was one. *)
Fixpoint count_words (inword : bool) (s : string) : nat :=
  match s with
  | EmptyString => O
  | String c s' =>
      if is_space c then count_words false s'
      else if inword then count_words true s'
      else S (count_words true s')
  end.

(** [len(s.split())] *)
Definition split_len (s : string) : Z := Z.of_nat (count_words false s).

(** [a < b] on strings: lexicographic on the character codes. *)
Fixpoint ltb (a b : string) : bool :=
  match a, b with
  | _, EmptyString => false
  | EmptyString, String _ _ => true
  | String x a', String y b' =>
      if (nat_of_ascii x <? nat_of_ascii y)%nat then true
      else if (nat_of_ascii y <? nat_of_ascii x)%nat then false
      else ltb a' b'
  end.

(** The builtin [max(a, b)] on two strings: the first argument is kept
    unless the second is strictly greater. *)
Definition max2 (a b : string) : string := if ltb a b then b else a.

End PyStr.

(** Exceptions, by the classes the scripts distinguish.  [BaseOnly] stands
    for a [BaseException] that is no [Exception] (a cancellation or an
    interrupt), which no handler of the scripts catches. *)
Inductive exn_class : Type :=
  | ValueError | KeyError | TypeError | AttributeError | NameError
  | ZeroDivisionError
  | MaxTurnsExceeded | ModelBehaviorError | AgentsException
  | OtherException | BaseOnly.

Record exn : Type := Exn { exn_cls : exn_class; exn_msg : string }.

(** [isinstance(e, Exception)] *)
Definition is_Exception (e : exn) : bool :=
  match exn_cls e with BaseOnly => false | _ => true end.

(** [isinstance(e, AgentsException)]: the SDK's two named errors derive
    from it. *)
Definition is_AgentsException (e : exn) : bool :=
  match exn_cls e with
  | MaxTurnsExceeded | ModelBehaviorError | AgentsException => true
  | _ => false
  end.

(** Outcome of a computation that may raise. *)
Inductive res (A : Type) : Type :=
  | Ok (a : A)
  | Raise (e : exn).
Arguments Ok {A} a.
Arguments Raise {A} e.

Definition is_ok {A} (r : res A) : bool :=
  match r with Ok _ => true | Raise _ => false end.

#[global] Instance res_ret : MRet res := λ A a, Ok a.
#[global] Instance res_bind : MBind res := λ A B f r,
  match r with Ok a => f a | Raise e => Raise e end.

Set Warnings "-register-all".

(** The dynamically typed values that occur in the dictionaries and
    objects of the scripts. *)
Inductive value : Type :=
  | VNone
  | VBool (b : bool)
  | VInt (z : Z)
  | VStr (s : string)
  | VList (l : list value).

(** ** The environment check at module initialisation
    (chapter 1/10_manual_memory.py, chapter 2/16_error_handling.py, ...) *)
Module EnvCheck.

(** [os.getenv("OPENAI_API_KEY")] is [None] or a string. *)
Definition module_init_check (api_key : option string) : res unit :=
  match api_key with
  | None => Raise (Exn ValueError "OPENAI_API_KEY not found. Check your .env file.")
  | Some k =>
      (* [not api_key] also holds for the empty string *)
      if String.eqb k "" then
        Raise (Exn ValueError "OPENAI_API_KEY not found. Check your .env file.")
      else if negb (PyStr.startswith k "sk-") then
        Raise (Exn ValueError "Invalid OpenAI API key format.")
      else Ok tt
  end.

Definition raises_ValueError (r : res unit) : Prop :=
  exists msg, r = Raise (Exn ValueError msg).

End EnvCheck.

(** ** The SDK boundary: agents and the runner *)

(** An [Agent] is a configuration object; the scripts only read its name.
    Long instruction texts are abridged below, and what the scripts print
    or log is left out throughout. *)
Record Agent : Type := mkAgent { agent_name : string; agent_instructions : string }.

(** Computations over a state [S] that may raise. *)
Definition M (S A : Type) : Type := S → res A * S.

#[global] Instance M_ret {S} : MRet (M S) := λ A a s, (Ok a, s).
#[global] Instance M_bind {S} : MBind (M S) := λ A B f c s,
  match c s with
  | (Ok a, s') => f a s'
  | (Raise e, s') => (Raise e, s')
  end.

Definition raise {S A} (e : exn) : M S A := λ s, (Raise e, s).

(** [try: c  except Exception as e: h e]; anything that is no [Exception]
    passes through the handler. *)
Definition try_except {S A} (c : M S A) (h : exn → M S A) : M S A := λ s,
  match c s with
  | (Ok a, s') => (Ok a, s')
  | (Raise e, s') => if is_Exception e then h e s' else (Raise e, s')
  end.

Section Runner.
(** [Out] is the type of [result.final_output]. *)
Context {Out : Type}.

(** The hosted model is outside the repository: the [script] fixes what
    the k-th call of the runner returns or raises, [calls] logs the
    calls made so far in order. *)
Record World : Type := mkWorld {
  script : nat → Agent → string → res Out;
  calls : list (Agent * string)
}.

(** [Runner.run(agent, input)] and [Runner.run_sync(agent, input)] *)
Definition Runner_run (a : Agent) (input : string) : M World Out := λ w,
  (script w (length (calls w)) a input,
   {| script := script w; calls := calls w ++ [(a, input)] |}).
End Runner.
Arguments World : clear implicits.

(** ** chapter 5/10_conditional_routing.py *)
Module ConditionalRouting.

Record ProcessingContext : Type := mkContext {
  request_id : string;
  user_type : string;
  priority : string;
  routing_history : list string;
  created_at : Z
}.

Definition processor_agent := mkAgent "Processor Agent"
  "Analyze the input and provide a routing decision.".
Definition finalizer_agent := mkAgent "Finalizer Agent"
  "Finalize successful processing results. Provide polished final output.".
Definition reviewer_agent := mkAgent "Reviewer Agent"
  "Review uncertain results. Provide quality assessment and improvements.".
Definition human_review_agent := mkAgent "Human Review Agent"
  "Handle cases requiring human review. Provide detailed analysis for human oversight.".
Definition supervisor_agent := mkAgent "Supervisor Agent"
  "Handle escalated cases. Provide management-level resolution.".
Definition error_handler_agent := mkAgent "Error Handler Agent"
  "Handle processing errors. Provide error analysis and recovery options.".

(** The workflow mutates the context object it is given and talks to the
    runner. *)
Record St : Type := mkSt { ctx : ProcessingContext; world : World string }.

(** [context.routing_history.append(entry)] *)
Definition history_append (entry : string) : M St unit := λ s,
  (Ok tt,
   {| ctx := {| request_id := request_id (ctx s);
                user_type := user_type (ctx s);
                priority := priority (ctx s);
                routing_history := routing_history (ctx s) ++ [entry];
                created_at := created_at (ctx s) |};
      world := world s |}).

(** [(await Runner.run(agent, prompt)).final_output] *)
Definition run (a : Agent) (prompt : string) : M St string := λ s,
  let '(r, w') := Runner_run a prompt (world s) in
  (r, {| ctx := ctx s; world := w' |}).

(** The [if]/[elif] chain that extracts the outcome from the response. *)
Definition extract_outcome (processor_response : string) : string :=
  if PyStr.contains "SUCCESS_HIGH" processor_response then "SUCCESS_HIGH"
  else if PyStr.contains "SUCCESS_MEDIUM" processor_response then "SUCCESS_MEDIUM"
  else if PyStr.contains "NEEDS_REVIEW" processor_response then "NEEDS_REVIEW"
  else if PyStr.contains "REQUIRES_ESCALATION" processor_response then "REQUIRES_ESCALATION"
  else if PyStr.contains "ERROR" processor_response then "ERROR"
  else "SUCCESS_MEDIUM".

(** Step 2: the branch taken for an outcome. *)
Definition route (outcome input_data : string) : M St string :=
  if String.eqb outcome "SUCCESS_HIGH" then
    _ ← history_append "Routed to Finalizer (high confidence)";
    run finalizer_agent ("Finalize this request: " ++ input_data)
  else if String.eqb outcome "SUCCESS_MEDIUM" then
    _ ← history_append "Routed to Reviewer (medium confidence)";
    review_result ← run reviewer_agent ("Review this request: " ++ input_data);
    _ ← history_append "Reviewed, now finalizing";
    run finalizer_agent ("Finalize reviewed content: " ++ review_result)
  else if String.eqb outcome "NEEDS_REVIEW" then
    _ ← history_append "Routed to Human Review Agent";
    run human_review_agent ("Human review needed for: " ++ input_data)
  else if String.eqb outcome "REQUIRES_ESCALATION" then
    _ ← history_append "Escalated to Supervisor Agent";
    run supervisor_agent ("Escalated case: " ++ input_data)
  else
    _ ← history_append "Error handling triggered";
    run error_handler_agent ("Handle error in request: " ++ input_data).

Definition conditional_workflow (input_data : string) : M St string :=
  _ ← history_append "Started with Processor Agent";
  processor_response ← run processor_agent ("Process this request: " ++ input_data);
  route (extract_outcome processor_response) input_data.

(** The claim's reading of the selection: the labels in their fixed
    order, the first one occurring in the response, else the default. *)
Definition labels : list string :=
  ["SUCCESS_HIGH"; "SUCCESS_MEDIUM"; "NEEDS_REVIEW"; "REQUIRES_ESCALATION"; "ERROR"].

Definition first_matching_label (response : string) : string :=
  match List.find (λ l, PyStr.contains l response) labels with
  | Some l => l
  | None => "SUCCESS_MEDIUM"
  end.

(** The claim's reading of the dispatch: the agents run for an outcome. *)
Definition downstream (outcome : string) : list Agent :=
  if String.eqb outcome "SUCCESS_HIGH" then [finalizer_agent]
  else if String.eqb outcome "SUCCESS_MEDIUM" then [reviewer_agent; finalizer_agent]
  else if String.eqb outcome "NEEDS_REVIEW" then [human_review_agent]
  else if String.eqb outcome "REQUIRES_ESCALATION" then [supervisor_agent]
  else [error_handler_agent].

End ConditionalRouting.


(** The SDK's result type of a guardrail callback. *)
Record GuardrailFunctionOutput (I : Type) : Type := mkGuardrailOutput {
  output_info : I;
  tripwire_triggered : bool
}.
Arguments mkGuardrailOutput {I} _ _.
Arguments output_info {I} _.
Arguments tripwire_triggered {I} _.

(** ** chapter 3/my-agent-project/src/my_agents/specialized/guardrails.py *)
Module ContentSafety.

Record ContentSafetyOutput : Type := mkSafety { is_safe : bool; reasoning : string }.

Definition content_safety_agent := mkAgent "Content Safety"
  "You are a content safety checker.".

(** The callback; the context and the guarded agent are passed through
    to the SDK and not inspected, logging is left out. *)
Definition content_safety_guardrail (input_data : string)
  : M (World ContentSafetyOutput) (GuardrailFunctionOutput ContentSafetyOutput) :=
  safety_result ← Runner_run content_safety_agent input_data;
  mret (mkGuardrailOutput safety_result (negb (is_safe safety_result))).

End ContentSafety.

(** ** chapter 4/02_advanced_input_guardrails.py *)
Module AdvancedGuardrails.

Record InputValidationResult : Type := mkValidation {
  is_safe : bool;
  risk_level : string;
  violations : list string;
  confidence : Q;
  recommended_action : string
}.

(** The severity table the file uses when it compares risk levels. *)
Definition risk_hierarchy : gmap string Z :=
  {[ "low" := 0; "medium" := 1; "high" := 2; "critical" := 3 ]}.

(** [AdvancedInputValidator.validate_input_length] up to the word-count
    check; the file does not contain the statement that returns, so the
    two locals are the result.  [char_check] is the state after the
    character-count check. *)
Definition char_check (input_text : string) : list string * string :=
  let char_count := PyStr.len input_text in
  if 10000 <? char_count then (["Input exceeds maximum character limit"], "high")
  else if 5000 <? char_count then (["Input is unusually long"], "medium")
  else ([], "low").

Definition validate_input_length (input_text : string) : list string * string :=
  let word_count := PyStr.split_len input_text in
  let '(violations, risk_level) := char_check input_text in
  if 2000 <? word_count then
    ((violations ++ ["Input exceeds maximum word limit"])%list,
     PyStr.max2 risk_level "medium")
  else (violations, risk_level).

(** Severity of a level in [risk_hierarchy]. *)
Definition severity (level : string) : option Z := risk_hierarchy !! level.

(** [max(0.1, x)] *)
Definition max_tenth (x : Q) : Q := if Qle_bool x (1 # 10) then (1 # 10)%Q else x.

(** [AdvancedInputValidator.validate_comprehensive] from the point where
    the highest risk level and the collected violations are known; the
    part of the method that collects them is not in the file. *)
Definition validate_comprehensive_tail (max_risk_level : string)
    (all_violations : list string) : InputValidationResult :=
  let is_safe := String.eqb max_risk_level "low" || String.eqb max_risk_level "medium" in
  let confidence :=
    max_tenth (1 - inject_Z (Z.of_nat (length all_violations)) * (2 # 10))%Q in
  let recommended_action :=
    if String.eqb max_risk_level "critical" then "block"
    else if String.eqb max_risk_level "high" then "review"
    else if String.eqb max_risk_level "medium" then "monitor"
    else "allow" in
  mkValidation is_safe max_risk_level all_violations confidence recommended_action.

Definition validation_agent := mkAgent "ContentValidator"
  "You are a content validation specialist.".

(** [max(a, b, key=lambda x: risk_hierarchy[x])]: the key of each
    argument is looked up, a missing one raises [KeyError]. *)
Definition max_by_hierarchy {S} (a b : string) : M S string :=
  match risk_hierarchy !! a with
  | None => raise (Exn KeyError a)
  | Some ka =>
      match risk_hierarchy !! b with
      | None => raise (Exn KeyError b)
      | Some kb => mret (if ka <? kb then b else a)
      end
  end.

(** [min(a, b)] on two numbers *)
Definition min2 (a b : Q) : Q := if Qle_bool a b then a else b.

Definition validation_prompt (input_data : string) (basic : InputValidationResult) : string :=
  "Analyze this user input for safety and appropriateness: Input: "
  ++ PyStr.take 1000 input_data ++ "... Basic validation found these concerns: "
  ++ PyStr.join ", " (violations basic) ++ " Provide a comprehensive safety assessment.".

(** The body of the [try] block. *)
Definition ai_powered_validation (input_data : string) (basic : InputValidationResult)
  : M (World InputValidationResult) InputValidationResult :=
  ai_validation ← Runner_run validation_agent (validation_prompt input_data basic);
  let combined_violations :=
    elements (list_to_set (violations basic ++ violations ai_validation)%list : gset string) in
  final_risk_level ← max_by_hierarchy (risk_level basic) (risk_level ai_validation);
  mret (mkValidation (is_safe ai_validation) final_risk_level combined_violations
          (min2 (confidence basic) (confidence ai_validation))
          (recommended_action ai_validation)).

(** The callback, given the result of the rule-based validation. *)
Definition guardrail_on (input_data : string) (basic_validation : InputValidationResult)
  : M (World InputValidationResult) (GuardrailFunctionOutput InputValidationResult) :=
  if String.eqb (risk_level basic_validation) "critical" then
    mret (mkGuardrailOutput basic_validation true)
  else
    final_result ←
      (if String.eqb (risk_level basic_validation) "medium"
          || String.eqb (risk_level basic_validation) "high"
       then try_except (ai_powered_validation input_data basic_validation)
                       (λ _, mret basic_validation)
       else mret basic_validation);
    mret (mkGuardrailOutput final_result (negb (is_safe final_result))).

(** [comprehensive_input_guardrail]: the rule-based validation ends in
    [validate_comprehensive_tail]. *)
Definition comprehensive_input_guardrail (input_data max_risk_level : string)
    (all_violations : list string)
  : M (World InputValidationResult) (GuardrailFunctionOutput InputValidationResult) :=
  guardrail_on input_data (validate_comprehensive_tail max_risk_level all_violations).

End AdvancedGuardrails.

(** ** chapter 2/16_error_handling.py and chapter 1/05_error_handling_agent.py *)
Module Retry.

(** [range(n)] *)
Definition range (n : Z) : list Z := List.map Z.of_nat (seq 0 (Z.to_nat n)).

Section WithResult.
(** The SDK's [RunResult]. *)
Context {RunResult : Type}.

Record RobustAgent : Type := mkRobust { agent : Agent; max_retries : Z }.

(** [RobustAgent(agent)]: three retries unless told otherwise. *)
Definition RobustAgent_default (a : Agent) : RobustAgent := mkRobust a 3.

(** An instance of the local class [ErrorResult] is its attribute
    dictionary; the class itself defines nothing but [__init__]. *)
Definition getattr (obj : gmap string value) (name : string) : res value :=
  match obj !! name with
  | Some v => Ok v
  | None => Raise (Exn AttributeError
                     ("'ErrorResult' object has no attribute '" ++ name ++ "'"))
  end.

(** [ErrorResult.__init__(self, message)]: [self] is the new object, and
    the second assignment reads [self.agent] from it. *)
Definition ErrorResult_init (message : string) : res (gmap string value) :=
  let self : gmap string value := <["final_output" := VStr message]> ∅ in
  a ← getattr self "agent";
  let self := <["last_agent" := a]> self in
  let self := <["new_items" := VList []]> self in
  let self := <["raw_responses" := VList []]> self in
  mret self.

(** What [execute_with_retry] hands back: the runner's result or the
    fallback object. *)
Inductive outcome : Type :=
  | Result (r : RunResult)
  | ErrorResult (attrs : gmap string value).

(** [self._create_error_response(message)] *)
Definition _create_error_response {S} (message : string) : M S outcome := λ s,
  (obj ← ErrorResult_init message; mret (ErrorResult obj), s).

(** The message of the handler that catches [e]. *)
Definition handler_message (e : exn) : string :=
  match exn_cls e with
  | MaxTurnsExceeded => "The request was too complex to complete."
  | ModelBehaviorError => "Unable to process request due to response format issues."
  | _ => "An unexpected error occurred. Please try again."
  end.

(** The [for] loop of [execute_with_retry] over the remaining values of
    [attempt], followed by the statement after the loop. *)
Fixpoint execute_loop (self : RobustAgent) (user_input : string) (attempts : list Z)
  : M (World RunResult) outcome := λ w,
  match attempts with
  | [] => _create_error_response "Service temporarily unavailable." w
  | attempt :: rest =>
      match Runner_run (agent self) user_input w with
      | (Ok result, w') => (Ok (Result result), w')
      | (Raise e, w') =>
          if is_Exception e then
            if attempt =? max_retries self - 1
            then _create_error_response (handler_message e) w'
            else execute_loop self user_input rest w'
          else (Raise e, w')
      end
  end.

Definition execute_with_retry (self : RobustAgent) (user_input : string)
  : M (World RunResult) outcome :=
  execute_loop self user_input (range (max_retries self)).

(** The loop of [safe_agent_execution]; [None] is Python's [None].  An
    [AgentsException] other than the two named ones is not retried. *)
Fixpoint safe_loop (a : Agent) (prompt : string) (max_retries : Z) (attempts : list Z)
  : M (World RunResult) (option RunResult) := λ w,
  match attempts with
  | [] => (Ok None, w)
  | attempt :: rest =>
      match Runner_run a prompt w with
      | (Ok result, w') => (Ok (Some result), w')
      | (Raise e, w') =>
          match exn_cls e with
          | BaseOnly => (Raise e, w')
          | AgentsException => (Ok None, w')
          | _ =>
              if attempt =? max_retries - 1 then (Ok None, w')
              else safe_loop a prompt max_retries rest w'
          end
      end
  end.

Definition safe_agent_execution (a : Agent) (prompt : string) (max_retries : Z)
  : M (World RunResult) (option RunResult) :=
  safe_loop a prompt max_retries (range max_retries).

(** Number of runner calls a computation made from [w]. *)
Definition attempts_made {A} (c : M (World RunResult) A) (w : World RunResult) : nat :=
  (length (calls (snd (c w))) - length (calls w))%nat.

End WithResult.
Arguments outcome : clear implicits.

End Retry.

(** ** chapter 2/22_security.py *)
Module Security.

(** The policy dictionary; an absent key is [None], read with
    [.get(key, default)]. *)
Record security_policies : Type := mkPolicies {
  blocked_patterns : option (list string);
  redact_patterns : option (list string);
  max_input_length : option Z
}.

(** [dict.get(key, default)] on an optional entry *)
Definition get {A} (entry : option A) (default : A) : A :=
  match entry with Some v => v | None => default end.

Section Wrapper.
(** The head of the dictionary literal in [log_interaction] lies outside
    the file; [entry_head user_input output metadata] stands for the entries
    that precede ["success"]. *)
Variable entry_head : string → string → gmap string value → gmap string value.

Record SecureAgentWrapper : Type := mkWrapper {
  agent : Agent;
  policies : security_policies
}.

(** The mutable part of the wrapper, and the runner. *)
Record St : Type := mkSt {
  audit_log : list (gmap string value);
  world : World string
}.

(** The loop over the blocked patterns in [validate_input]. *)
Fixpoint first_blocked (sensitive_patterns : list string) (user_input : string)
  : option string :=
  match sensitive_patterns with
  | [] => None
  | pattern :: rest =>
      if PyStr.contains (PyStr.lower pattern) (PyStr.lower user_input)
      then Some pattern
      else first_blocked rest user_input
  end.

Definition validate_input (self : SecureAgentWrapper) (user_input : string)
  : bool * string :=
  let sensitive_patterns := get (blocked_patterns (policies self)) [] in
  match first_blocked sensitive_patterns user_input with
  | Some pattern => (false, "Input contains blocked pattern: " ++ pattern)
  | None =>
      let max_length := get (max_input_length (policies self)) 1000 in
      if max_length <? PyStr.len user_input
      then (false, "Input exceeds maximum length of " ++ pretty max_length ++ " characters")
      else (true, "Input validated")
  end.

Definition sanitize_output (self : SecureAgentWrapper) (output : string) : string :=
  let sensitive_data := get (redact_patterns (policies self)) [] in
  fold_left (λ sanitized pattern, PyStr.replace sanitized pattern "[REDACTED]")
            sensitive_data output.

(** [metadata.get("success", True)] *)
Definition log_interaction (user_input output : string) (metadata : gmap string value)
  : M St unit := λ s,
  let log_entry :=
    <["success" := default (VBool true) (metadata !! "success")]>
      (entry_head user_input output metadata) in
  (Ok tt, {| audit_log := audit_log s ++ [log_entry]; world := world s |}).

Definition run (a : Agent) (input : string) : M St string := λ s,
  let '(r, w') := Runner_run a input (world s) in
  (r, {| audit_log := audit_log s; world := w' |}).

(** [metadata or {}] *)
Definition or_empty (metadata : option (gmap string value)) : gmap string value :=
  match metadata with Some m => m | None => ∅ end.

Definition secure_execute (self : SecureAgentWrapper) (user_input : string)
    (metadata : option (gmap string value)) : M St (gmap string value) :=
  let metadata := or_empty metadata in
  let '(is_valid, validation_message) := validate_input self user_input in
  if negb is_valid then
    let error_response : gmap string value :=
      {[ "success" := VBool false; "error" := VStr validation_message;
         "blocked" := VBool true ]} in
    _ ← log_interaction user_input "" (<["success" := VBool false]> metadata);
    mret error_response
  else
    try_except
      (final_output ← run (agent self) user_input;
       let sanitized_output := sanitize_output self final_output in
       _ ← log_interaction user_input sanitized_output (<["success" := VBool true]> metadata);
       mret ({[ "success" := VBool true; "response" := VStr sanitized_output;
                "agent_name" := VStr (agent_name (agent self)) ]} : gmap string value))
      (λ e,
       let error_msg := "Execution failed: " ++ exn_msg e in
       _ ← log_interaction user_input "" (<["success" := VBool false]> metadata);
       mret ({[ "success" := VBool false; "error" := VStr error_msg ]} : gmap string value)).

End Wrapper.

(** The claim's reading of a blocked input. *)
Definition has_blocked_pattern (self : SecureAgentWrapper) (user_input : string) : Prop :=
  ∃ pattern, pattern ∈ get (blocked_patterns (policies self)) []
             ∧ PyStr.contains (PyStr.lower pattern) (PyStr.lower user_input) = true.

Definition too_long (self : SecureAgentWrapper) (user_input : string) : Prop :=
  get (max_input_length (policies self)) 1000 < PyStr.len user_input.

End Security.

(** ** Python's [re], for the patterns the scripts use

    Every quantifier of the scripts' patterns is a greedy one over a single
    character class, so a pattern is a sequence of such repetitions and
    zero-width assertions. *)
Module Re.

Inductive item : Type :=
  | Rep (p : ascii → bool) (lo : nat) (hi : option nat)  (* [X{lo,hi}], greedy *)
  | WordB                                                (* [\b] *)
  | Bol                                                  (* [^] *)
  | Eol.                                                 (* [$] *)

Definition newline : string := String (ascii_of_nat 10) EmptyString.

(** [\w] *)
Definition is_word (c : ascii) : bool :=
  PyStr.is_alpha c || PyStr.is_digit c || Ascii.eqb c "_".

Definition word_at (c : option ascii) : bool :=
  match c with Some c => is_word c | None => false end.

Definition head (s : string) : option ascii :=
  match s with String c _ => Some c | EmptyString => None end.

Definition below (count : nat) (hi : option nat) : bool :=
  match hi with Some h => (count <? h)%nat | None => true end.

(** A greedy repetition followed by the rest of the pattern [cont]:
    one more character is tried first, the shorter run on failure.
    [prev] is the character before the current position. *)
Fixpoint rep (p : ascii → bool) (cont : option ascii → string → option string)
    (lo : nat) (hi : option nat) (count : nat) (prev : option ascii) (s : string)
  : option string :=
  let stop := if (lo <=? count)%nat then cont prev s else None in
  match s with
  | String c s' =>
      if p c && below count hi then
        match rep p cont lo hi (S count) (Some c) s' with
        | Some r => Some r
        | None => stop
        end
      else stop
  | EmptyString => stop
  end.

(** Match the pattern at the current position; the result is the text
    after the match.  [$] holds at the end and before a final newline. *)
Fixpoint exec (re : list item) (prev : option ascii) (s : string) : option string :=
  match re with
  | [] => Some s
  | Rep p lo hi :: k => rep p (exec k) lo hi 0 prev s
  | WordB :: k =>
      if xorb (word_at prev) (word_at (head s)) then exec k prev s else None
  | Bol :: k =>
      match prev with None => exec k prev s | Some _ => None end
  | Eol :: k =>
      if String.eqb s "" || String.eqb s newline then exec k prev s else None
  end.

(** [bool(re.match(pattern, s))] *)
Definition matches (re : list item) (s : string) : bool :=
  match exec re None s with Some _ => true | None => false end.

(** [re.sub(pattern, repl, s)] from a position on: [skip] characters of
    the last match are still to be passed over. *)
Fixpoint sub_from (re : list item) (repl : string) (skip : nat)
    (prev : option ascii) (s : string) : string :=
  match s with
  | EmptyString =>
      match skip, exec re prev "" with
      | O, Some _ => repl
      | _, _ => ""
      end
  | String c s' =>
      match skip with
      | S k => sub_from re repl k (Some c) s'
      | O =>
          match exec re prev s with
          | Some rest =>
              match (String.length s - String.length rest)%nat with
              | O => repl ++ String c (sub_from re repl O (Some c) s')
              | S m => repl ++ sub_from re repl m (Some c) s'
              end
          | None => String c (sub_from re repl O (Some c) s')
          end
      end
  end.

Definition sub (re : list item) (repl s : string) : string :=
  sub_from re repl O None s.

(** The upper bound of a repetition, as a proposition. *)
Definition within (count : nat) (hi : option nat) : Prop :=
  match hi with Some h => (count ≤ h)%nat | None => True end.

(** Items that look at the character before the position. *)
Definition looks_back (i : item) : bool :=
  match i with WordB | Bol => true | Rep _ _ _ | Eol => false end.

(** Building blocks of the patterns *)
Fixpoint in_chars (set : string) (c : ascii) : bool :=
  match set with
  | EmptyString => false
  | String x set' => Ascii.eqb x c || in_chars set' c
  end.

Definition lit (c : ascii) : item := Rep (Ascii.eqb c) 1 (Some 1%nat).
Definition digits (n : nat) : item := Rep PyStr.is_digit n (Some n).
Definition opt (p : ascii → bool) : item := Rep p 0 (Some 1%nat).
Definition plus (p : ascii → bool) : item := Rep p 1 None.
Definition at_least (n : nat) (p : ascii → bool) : item := Rep p n None.

End Re.

(** ** chapter 5/04_handoff_input_filters.py *)
Module HandoffFilters.
Import Re.

(** [[-\s]] *)
Definition separator (c : ascii) : bool := Ascii.eqb c "-" || PyStr.is_space c.
(** [[A-Za-z0-9._%+-]] *)
Definition local_char (c : ascii) : bool :=
  PyStr.is_alpha c || PyStr.is_digit c || in_chars "._%+-" c.
(** [[A-Za-z0-9.-]] *)
Definition domain_char (c : ascii) : bool :=
  PyStr.is_alpha c || PyStr.is_digit c || in_chars ".-" c.
(** [[A-Z|a-z]]: the bar is a member of the class *)
Definition tld_char (c : ascii) : bool := PyStr.is_alpha c || Ascii.eqb c "|".

Definition card_pattern : list item :=
  [WordB; digits 4; opt separator; digits 4; opt separator; digits 4;
   opt separator; digits 4; WordB].
Definition ssn_pattern : list item :=
  [WordB; digits 3; lit "-"; digits 2; lit "-"; digits 4; WordB].
Definition phone_pattern : list item :=
  [WordB; digits 3; lit "-"; digits 3; lit "-"; digits 4; WordB].
Definition email_pattern : list item :=
  [WordB; plus local_char; lit "@"; plus domain_char; lit "."; at_least 2 tld_char; WordB].

(** The four substitutions applied to the content of a user message. *)
Definition redact (content : string) : string :=
  let content := sub card_pattern "[CARD-REDACTED]" content in
  let content := sub ssn_pattern "[SSN-REDACTED]" content in
  let content := sub phone_pattern "[PHONE-REDACTED]" content in
  sub email_pattern "[EMAIL-REDACTED]" content.

(** [message.get("role") == "user"] *)
Definition is_user (message : gmap string value) : bool :=
  match message !! "role" with
  | Some (VStr r) => String.eqb r "user"
  | _ => false
  end.

(** One turn of the loop: the message appended to [filtered_history]. *)
Definition filter_message (message : gmap string value) : res (gmap string value) :=
  if is_user message then
    match message !! "content" with
    | None => Raise (Exn KeyError "content")
    | Some (VStr content) => Ok (<["content" := VStr (redact content)]> message)
    | Some _ => Raise (Exn TypeError "expected string or bytes-like object")
    end
  else Ok message.

(** The [for] loop, with [filtered_history] as it has been built so far. *)
Fixpoint filter_loop (conversation_history filtered_history : list (gmap string value))
  : res (list (gmap string value)) :=
  match conversation_history with
  | [] => Ok filtered_history
  | message :: rest =>
      filtered_message ← filter_message message;
      filter_loop rest (filtered_history ++ [filtered_message])
  end.

Definition filter_sensitive_data (conversation_history : list (gmap string value))
  : res (list (gmap string value)) :=
  filter_loop conversation_history [].

(** A user message that the substitutions can be applied to. *)
Definition has_text (message : gmap string value) : Prop :=
  is_user message = true → ∃ content, message !! "content" = Some (VStr content).

(** The claim's reading of the result for one message: every other
    message is the same, a user message differs in its content only, where
    the four kinds of data are replaced by their markers. *)
Definition filtered_as (message filtered : gmap string value) : Prop :=
  (is_user message = false → filtered = message)
  ∧ (is_user message = true →
     ∃ content,
       message !! "content" = Some (VStr content)
       ∧ filtered !! "content"
         = Some (VStr (Re.sub email_pattern "[EMAIL-REDACTED]"
                         (Re.sub phone_pattern "[PHONE-REDACTED]"
                            (Re.sub ssn_pattern "[SSN-REDACTED]"
                               (Re.sub card_pattern "[CARD-REDACTED]" content)))))
       ∧ ∀ key, key ≠ "content" → filtered !! key = message !! key).

End HandoffFilters.

(** ** chapter 3/my-agent-project/src/my_agents/tools/validation.py *)
Module Validation.
Import Re.

(** [^[a-zA-Z0-9._%+-]+@[a-zA-Z0-9.-]+\.[a-zA-Z]{2,}$] *)
Definition pattern : list item :=
  [Bol; plus HandoffFilters.local_char; lit "@"; plus HandoffFilters.domain_char;
   lit "."; at_least 2 PyStr.is_alpha; Eol].

Definition validate_email (email : string) : gmap string value :=
  let is_valid := matches pattern email in
  {[ "is_valid_format" := VBool is_valid; "email" := VStr email ]}.

(** [all(p(c) for c in s)] *)
Fixpoint all_chars (p : ascii → bool) (s : string) : bool :=
  match s with
  | EmptyString => true
  | String c s' => p c && all_chars p s'
  end.

(** The claim's reading of a well-formed address: the whole string is
    local-part, [@], domain, a dot and a top-level domain of at least two
    letters. *)
Definition email_shape (s : string) : Prop :=
  ∃ local domain tld : string,
    s = local ++ "@" ++ domain ++ "." ++ tld
    ∧ local ≠ "" ∧ all_chars HandoffFilters.local_char local = true
    ∧ domain ≠ "" ∧ all_chars HandoffFilters.domain_char domain = true
    ∧ (2 ≤ String.length tld)%nat ∧ all_chars PyStr.is_alpha tld = true.

End Validation.

(** ** chapter 3/my-agent-project/src/my_agents/tools/data_tools.py *)
Module DataTools.

(** [sum(data)] *)
Definition sum (data : list Z) : Z := fold_left Z.add data 0.

(** [min(data)] and [max(data)]: the first element, replaced by each later
    one that is strictly smaller (greater); an empty list raises. *)
Definition py_min (data : list Z) : res Z :=
  match data with
  | [] => Raise (Exn ValueError "min() arg is an empty sequence")
  | x :: rest => Ok (fold_left (λ best y, if y <? best then y else best) rest x)
  end.

Definition py_max (data : list Z) : res Z :=
  match data with
  | [] => Raise (Exn ValueError "max() arg is an empty sequence")
  | x :: rest => Ok (fold_left (λ best y, if best <? y then y else best) rest x)
  end.

(** [a / b] on integers, as an exact quotient. *)
Definition true_div (a b : Z) : res Q :=
  if b =? 0 then Raise (Exn ZeroDivisionError "division by zero")
  else Ok (Qmake a 1 / Qmake b 1)%Q.

(** What the function returns: the message or the dictionary. *)
Inductive summary : Type :=
  | Message (s : string)
  | Stats (count min max : Z) (average : Q).

Definition summarize_data (data : list Z) : res summary :=
  match data with
  | [] => Ok (Message "No data provided.")
  | _ :: _ =>
      let count := Z.of_nat (length data) in
      mn ← py_min data;
      mx ← py_max data;
      average ← true_div (sum data) (Z.of_nat (length data));
      mret (Stats count mn mx average)
  end.

End DataTools.

(** ** chapter 7/02_key_validation.py *)
Module KeyValidation.

Section Manager.
(** The enumerations and the private helpers of [APIKeyManager] are not
    part of the source files; they are parameters.  [Mgr] is the state of
    the manager that the helpers read and update. *)
Context {KeyStatus KeyScope Mgr : Type} `{EqDecision KeyStatus}.
Variable ACTIVE EXPIRED : KeyStatus.
Variable status_value : KeyStatus → string.
Variable scope_value : KeyScope → string.

(** The fields [create_key] stores (chapter 7/01_api_key_manager.py). *)
Record APIKeyInfo : Type := mkKeyInfo {
  key_id : string;
  key_hash : string;
  name : string;
  description : string;
  scope : KeyScope;
  status : KeyStatus;
  created_at : Z;
  expires_at : option Z;
  allowed_tools : list string;
  rate_limit : Z;
  ip_whitelist : list string
}.

Variable _validate_key_format : string → bool.
Variable _hash_key : string → string.
Variable _find_key_by_hash : Mgr → string → option APIKeyInfo.
(** The event type and the keyword arguments of the call *)
Variable _log_security_event : string → gmap string value → Mgr → Mgr.
Variable _update_key_status : string → KeyStatus → Mgr → Mgr.
Variable _check_rate_limit : string → Z → Mgr → bool * Mgr.
Variable _check_scope_permission : KeyScope → KeyScope → bool.
Variable _update_usage_metrics : string → Mgr → Mgr.
(** [datetime.now()] and the text of a set inside an f-string *)
Variable now : Z.
Variable set_repr : gset string → string.

(** The returned triple [(valid, error, info)]. *)
Definition denied (msg : string) : bool * option string * option (gmap string value) :=
  (false, Some msg, None).

(** The tool-specific permission check: the set of missing tools when the
    check denies, [None] when it lets the key pass. *)
Definition tool_check (required_tools : option (list string)) (allowed : list string)
  : option (gset string) :=
  match required_tools with
  | None | Some [] => None
  | Some required =>
      let missing_tools : gset string := list_to_set required ∖ list_to_set allowed in
      if negb (bool_decide (missing_tools = ∅)) && negb (bool_decide (allowed = []))
      then Some missing_tools else None
  end.

Definition validate_key (api_key : string) (required_scope : option KeyScope)
    (required_tools : option (list string)) (client_ip : option string) (m : Mgr)
  : (bool * option string * option (gmap string value)) * Mgr :=
  if negb (_validate_key_format api_key) then
    (denied "Invalid key format",
     _log_security_event "invalid_key_format"
       {[ "attempted_key_prefix" := VStr (PyStr.take 10 api_key) ]} m)
  else
    let key_hash := _hash_key api_key in
    match _find_key_by_hash m key_hash with
    | None =>
        (denied "Invalid API key",
         _log_security_event "unknown_key_used"
           {[ "key_hash" := VStr (PyStr.take 16 key_hash) ]} m)
    | Some key_info =>
        if negb (bool_decide (status key_info = ACTIVE)) then
          (denied ("Key is " ++ status_value (status key_info)), m)
        else if match expires_at key_info with
                | Some t => t <? now
                | None => false
                end then
          (denied "Key has expired", _update_key_status (key_id key_info) EXPIRED m)
        else if match ip_whitelist key_info, client_ip with
                | _ :: _, Some ip =>
                    negb (bool_decide (ip ∈ ip_whitelist key_info))
                    && negb (String.eqb ip "")
                | _, _ => false
                end then
          (denied "IP address not authorized",
           _log_security_event "unauthorized_ip"
             {[ "key_id" := VStr (key_id key_info);
                "ip_address" := default VNone (VStr <$> client_ip);
                "severity" := VStr "warning" ]} m)
        else
          let '(within, m) := _check_rate_limit (key_id key_info) (rate_limit key_info) m in
          if negb within then (denied "Rate limit exceeded", m)
          else if match required_scope with
                  | Some rs => negb (_check_scope_permission (scope key_info) rs)
                  | None => false
                  end then
            (denied "Insufficient permissions", m)
          else
            match tool_check required_tools (allowed_tools key_info) with
            | Some missing_tools =>
                (denied ("Tool access denied: " ++ set_repr missing_tools), m)
            | None =>
                let m := _update_usage_metrics (key_id key_info) m in
                (true, None,
                 Some {[ "key_id" := VStr (key_id key_info);
                         "scope" := VStr (scope_value (scope key_info));
                         "allowed_tools" := VList (VStr <$> allowed_tools key_info);
                         "name" := VStr (name key_info) ]}, m)
            end
    end.

End Manager.

End KeyValidation.

(** ** Further functions of the same files *)

(** Truth value of a dynamically typed value ([if v], [v or w]). *)
Definition truthy (v : value) : bool :=
  match v with
  | VNone => false
  | VBool b => b
  | VInt z => negb (z =? 0)
  | VStr s => negb (String.eqb s "")
  | VList l => match l with [] => false | _ :: _ => true end
  end.

(** [d[key]] *)
Definition getitem (d : gmap string value) (key : string) : res value :=
  match d !! key with
  | Some v => Ok v
  | None => Raise (Exn KeyError key)
  end.

(** *** chapter 5/04_handoff_input_filters.py, the other filter and its callers *)
Module HandoffTools.

(** [message.get("tool_calls") or message.get("role") == "tool"] *)
Definition is_tool_message (message : gmap string value) : bool :=
  truthy (default VNone (message !! "tool_calls"))
  || match message !! "role" with
     | Some (VStr r) => String.eqb r "tool"
     | _ => false
     end.

(** The loop of [filter_remove_tools]; [filtered_history] is the list
    built so far. *)
Fixpoint remove_loop (conversation_history filtered_history : list (gmap string value))
  : list (gmap string value) :=
  match conversation_history with
  | [] => filtered_history
  | message :: rest =>
      if is_tool_message message then remove_loop rest filtered_history
      else remove_loop rest (filtered_history ++ [message])
  end.

Definition filter_remove_tools (conversation_history : list (gmap string value))
  : list (gmap string value) :=
  remove_loop conversation_history [].

(** The two [print] loops read [msg['role']] and [msg['content']] of every
    message; what they print is left out. *)
Fixpoint read_all (conversation : list (gmap string value)) : res unit :=
  match conversation with
  | [] => Ok tt
  | msg :: rest =>
      _ ← getitem msg "role";
      _ ← getitem msg "content";
      read_all rest
  end.

(** The simulated conversation of [secure_handoff_to_financial]. *)
Definition financial_conversation (query : string) : list (gmap string value) :=
  [ {[ "role" := VStr "user";
       "content" := VStr "My credit card 4532-1234-5678-9012 was charged twice" ]};
    {[ "role" := VStr "assistant";
       "content" := VStr "I see there's a billing issue. Let me help you." ]};
    {[ "role" := VStr "user"; "content" := VStr query ]} ].

(** [secure_handoff_to_financial]: the filtered conversation is only
    printed; it is returned here beside the function's result. *)
Definition secure_handoff_to_financial (query : string)
  : res (string * list (gmap string value)) :=
  let conversation := financial_conversation query in
  filtered_conv ← HandoffFilters.filter_sensitive_data conversation;
  _ ← read_all conversation;
  _ ← read_all filtered_conv;
  mret ("Handoff to financial advisor with filtered context", filtered_conv).

End HandoffTools.

(** *** chapter 2/22_security.py, the audit report *)
Module AuditReport.

(** What Python's [set] compares: [True] and [1] are the same element,
    a list cannot be an element. *)
Inductive pykey : Type :=
  | KNone
  | KNum (z : Z)
  | KStr (s : string).

#[global] Instance pykey_eq_dec : EqDecision pykey.
Proof. solve_decision. Defined.

#[global] Instance pykey_countable : Countable pykey :=
  inj_countable'
    (λ k, match k with
          | KNone => inl ()
          | KNum z => inr (inl z)
          | KStr s => inr (inr s)
          end)
    (λ x, match x with
          | inl _ => KNone
          | inr (inl z) => KNum z
          | inr (inr s) => KStr s
          end)
    (λ k, match k with KNone | KNum _ | KStr _ => eq_refl end).

(** [hash(v)], as far as [set] needs it *)
Definition hashable (v : value) : res pykey :=
  match v with
  | VNone => Ok KNone
  | VBool b => Ok (KNum (if b then 1 else 0))
  | VInt z => Ok (KNum z)
  | VStr s => Ok (KStr s)
  | VList _ => Raise (Exn TypeError "unhashable type: 'list'")
  end.

(** [sum(1 for log in audit_log if log["success"])] *)
Fixpoint count_successful (audit_log : list (gmap string value)) : res Z :=
  match audit_log with
  | [] => Ok 0
  | log :: rest =>
      success ← getitem log "success";
      n ← count_successful rest;
      mret (if truthy success then 1 + n else n)
  end.

(** [set(log["user_id"] for log in audit_log)] *)
Fixpoint user_set (audit_log : list (gmap string value)) : res (gset pykey) :=
  match audit_log with
  | [] => Ok ∅
  | log :: rest =>
      user_id ← getitem log "user_id";
      k ← hashable user_id;
      users ← user_set rest;
      mret ({[ k ]} ∪ users)
  end.

Record report : Type := mkReport {
  total_interactions : Z;
  successful_interactions : Z;
  failure_rate : Q;
  unique_users : Z;
  date_range_start : value;
  date_range_end : value
}.

(** [get_audit_report], on the audit log of the wrapper. *)
Definition get_audit_report (audit_log : list (gmap string value)) : res report :=
  let total_interactions := Z.of_nat (length audit_log) in
  successful_interactions ← count_successful audit_log;
  failure_rate ←
    (if 0 <? total_interactions then
       q ← DataTools.true_div (total_interactions - successful_interactions)
                              total_interactions;
       mret (q * 100)%Q
     else mret 0%Q);
  users ← user_set audit_log;
  start ← match audit_log with
          | [] => Ok VNone
          | first :: _ => getitem first "timestamp"
          end;
  finish ← match last audit_log with
           | None => Ok VNone
           | Some final => getitem final "timestamp"
           end;
  mret (mkReport total_interactions successful_interactions failure_rate
          (Z.of_nat (size users)) start finish).

(** An entry the report can read. *)
Definition readable (log : gmap string value) : Prop :=
  is_Some (log !! "success")
  ∧ (∃ user_id k, log !! "user_id" = Some user_id ∧ hashable user_id = Ok k)
  ∧ is_Some (log !! "timestamp").

End AuditReport.

(** *** chapter 2/15_advanced_tool.py, the tools around the same e-mail pattern *)
Module AdvancedTool.

(** [s.split(sep)] for a separator of one character *)
Fixpoint split_on (sep : ascii) (s : string) : list string :=
  match s with
  | EmptyString => [EmptyString]
  | String c s' =>
      if Ascii.eqb c sep then EmptyString :: split_on sep s'
      else match split_on sep s' with
           | [] => [String c EmptyString]
           | field :: fields => String c field :: fields
           end
  end.

Definition common_domains : list string :=
  ["gmail.com"; "yahoo.com"; "outlook.com"; "company.com"].

(** [email.split('@')[1] if '@' in email else ''] *)
Definition domain_of (email : string) : res string :=
  if PyStr.contains "@" email then
    match split_on "@" email !! 1%nat with
    | Some domain => Ok domain
    | None => Raise (Exn OtherException "list index out of range")
    end
  else Ok "".

Definition validate_email (email : string) : res (gmap string value) :=
  let is_valid_format := Re.matches Validation.pattern email in
  domain ← domain_of email;
  let is_common_domain := bool_decide (PyStr.lower domain ∈ common_domains) in
  mret ({[ "is_valid_format" := VBool is_valid_format;
           "domain" := VStr domain;
           "is_common_domain" := VBool is_common_domain;
           "recommended_action" :=
             VStr (if is_valid_format then "proceed" else "request_correction") ]}
        : gmap string value).

Definition check_identifier_type (identifier : string) : gmap string value :=
  if PyStr.contains "@" identifier then
    {[ "type" := VStr "email";
       "identifier" := VStr identifier;
       "message" := VStr "This appears to be an email address. Use validate_email tool for detailed validation." ]}
  else
    {[ "type" := VStr "user_id";
       "identifier" := VStr identifier;
       "message" := VStr "This appears to be a user ID. Use fetch_user_data tool to look up user information." ]}.

End AdvancedTool.

(** *** chapter 3/.../specialized/customer_support.py, the product tool *)
Module ProductInfo.

Definition _get_product_info_impl (product_id : string) : string :=
  "Product " ++ product_id
  ++ ": This is a sample product description with detailed specifications and features.".

(** [get_product_info] is the same function behind the tool decorator. *)
Definition get_product_info (product_id : string) : string :=
  _get_product_info_impl product_id.

End ProductInfo.

(** *** chapter 7/01_api_key_manager.py, the key that [create_key] stores *)
Module KeyCreation.

(** [timedelta(days=n)] in microseconds, the resolution of [datetime] *)
Definition days (n : Z) : Z := n * 86400000000.

Section Info.
Context {KeyStatus KeyScope : Type}.
Variable ACTIVE : KeyStatus.
Variable _hash_key : string → string.

(** The [APIKeyInfo(...)] of [create_key].  The statements that produce
    [key_id] and [api_key] are not all in the file, so both are arguments;
    [created] and [now] are the two readings of the clock. *)
Definition create_key_info (key_id api_key name description : string)
    (scope : KeyScope) (expires_in_days : option Z)
    (allowed_tools : option (list string)) (rate_limit : Z)
    (ip_whitelist : option (list string)) (created now : Z)
  : @KeyValidation.APIKeyInfo KeyStatus KeyScope :=
  KeyValidation.mkKeyInfo key_id (_hash_key api_key) name description scope ACTIVE
    created
    (match expires_in_days with
     | Some n => if n =? 0 then None else Some (now + days n)
     | None => None
     end)
    (match allowed_tools with Some (t :: ts) => t :: ts | _ => [] end)
    rate_limit
    (match ip_whitelist with Some (ip :: ips) => ip :: ips | _ => [] end).

End Info.

End KeyCreation.

(** No character of [p] occurs in [q]. *)
Definition shares_no_char (p q : string) : bool :=
  Validation.all_chars (λ c, negb (Re.in_chars q c)) p.

(** The entries [conditional_workflow] adds to the routing history after
    the first one, by outcome. *)
Definition history_entries (outcome : string) : list string :=
  if String.eqb outcome "SUCCESS_HIGH" then ["Routed to Finalizer (high confidence)"]
  else if String.eqb outcome "SUCCESS_MEDIUM" then
    ["Routed to Reviewer (medium confidence)"; "Reviewed, now finalizing"]
  else if String.eqb outcome "NEEDS_REVIEW" then ["Routed to Human Review Agent"]
  else if String.eqb outcome "REQUIRES_ESCALATION" then ["Escalated to Supervisor Agent"]
  else ["Error handling triggered"].

(** The levels for which [comprehensive_input_guardrail] runs the
    validation agent. *)
Definition model_is_consulted (level : string) : bool :=
  String.eqb level "medium" || String.eqb level "high".

(** The errors after which both retry loops try again. *)
Definition retryable (e : exn) : bool :=
  match exn_cls e with
  | AgentsException | BaseOnly => false
  | _ => true
  end.

(** ** Concrete inputs used below *)

(** A runner whose every call exceeds the turn limit. *)
Definition always_max_turns : World unit :=
  mkWorld (λ _ _ _, Raise (Exn MaxTurnsExceeded "Max turns (5) exceeded")) [].

(** ["a " * 5001]: 10002 characters in 5001 words. *)
Definition many_short_words : string := PyStr.mul "a " 5001.

(** A well-formed address followed by a line feed. *)
Definition address_with_newline : string := "a@b.co" ++ Re.newline.

(** A manager with one active key that may use the tool [search]. *)
Definition demo_key : @KeyValidation.APIKeyInfo bool unit :=
  KeyValidation.mkKeyInfo "key_1" "h:sk_live_1" "demo" "" tt true 0 None
    ["search"] 1000 [].

Definition demo_find (m : unit) (h : string) : option (@KeyValidation.APIKeyInfo bool unit) :=
  if String.eqb h "h:sk_live_1" then Some demo_key else None.

Definition demo_set_repr (s : gset string) : string := PyStr.join ", " (elements s).

(** The wrapper of the script's demonstration. *)
Definition demo_wrapper : Security.SecureAgentWrapper :=
  Security.mkWrapper
    (mkAgent "SecureAgent" "You are a helpful assistant for customer inquiries.")
    (Security.mkPolicies (Some ["password"; "ssn"; "credit card"])
                         (Some ["admin@company.com"; "secret"]) (Some 500)).

Definition demo_state : Security.St :=
  Security.mkSt []
    (mkWorld (λ _ _ _, Ok "Write to admin@company.com, it is no secret.") []).

(** A short history: a user turn with a card number and a social
    security number, and an assistant turn with a phone number. *)
Definition demo_history : list (gmap string value) :=
  [ {[ "role" := VStr "user";
       "content" := VStr "My card is 4532-1234-5678-9012 and SSN 123-45-6789." ]};
    {[ "role" := VStr "assistant"; "content" := VStr "Call 555-123-4567" ]} ].

(** A user message without a [content] entry. *)
Definition history_without_content : list (gmap string value) :=
  [ {[ "role" := VStr "user" ]} ].

(** The conversation of [secure_handoff_to_service] with a question as
    last turn; the tool calls of the second turn are a non-empty list. *)
Definition demo_tool_history : list (gmap string value) :=
  [ {[ "role" := VStr "user"; "content" := VStr "I need help with my account" ]};
    {[ "role" := VStr "assistant"; "content" := VStr "Let me check your account";
       "tool_calls" := VList [VStr "get_account_info"] ]};
    {[ "role" := VStr "tool";
       "content" := VStr "Account details: Premium user since 2020" ]};
    {[ "role" := VStr "assistant"; "content" := VStr "I can see your account details." ]};
    {[ "role" := VStr "user"; "content" := VStr "My SSN is 123-45-6789" ]} ].

(** An audit log with one success and one blocked request of two users. *)
Definition demo_audit_log : list (gmap string value) :=
  [ {[ "user_id" := VStr "user123"; "timestamp" := VStr "2025-01-15T10:00:00";
       "success" := VBool true ]};
    {[ "user_id" := VStr "user124"; "timestamp" := VStr "2025-01-15T10:00:05";
       "success" := VBool false ]} ].

(** A runner that exceeds the turn limit twice and then answers. *)
Definition third_time_lucky : World string :=
  mkWorld (λ k _ _, match k with
                    | O | S O => Raise (Exn MaxTurnsExceeded "Max turns (5) exceeded")
                    | _ => Ok "Paris"
                    end) [].

(** A key as [create_key] builds it with zero expiry days and no tool
    list, and a manager that knows only this key. *)
Definition demo_created_key : @KeyValidation.APIKeyInfo bool unit :=
  KeyCreation.create_key_info true (λ k, "h:" ++ k) "key_2" "sk_live_2" "fresh" ""
    tt (Some 0) None 1000 None 0 0.

Definition demo_find_created (m : unit) (h : string)
  : option (@KeyValidation.APIKeyInfo bool unit) :=
  if String.eqb h "h:sk_live_2" then Some demo_created_key else None.

(** * Properties *)

(** ** The environment check *)

Lemma startswith_nonempty (k : string) : PyStr.startswith k "sk-" = true → k ≠ "".
Proof. destruct k; simpl; [discriminate | intros _; discriminate]. Qed.

(** C4: at module initialisation the check raises [ValueError] when
    [OPENAI_API_KEY] is absent, raises [ValueError] when it is present
    without the prefix [sk-], and lets every present key with that
    prefix pass. *)
Theorem api_key_check_spec :
  EnvCheck.raises_ValueError (EnvCheck.module_init_check None)
  ∧ ∀ k : string,
      if PyStr.startswith k "sk-"
      then EnvCheck.module_init_check (Some k) = Ok tt
      else EnvCheck.raises_ValueError (EnvCheck.module_init_check (Some k)).
Proof.
  split; [eexists; reflexivity |].
  intros k. unfold EnvCheck.module_init_check.
  destruct (PyStr.startswith k "sk-") eqn:Hp; simpl.
  - apply startswith_nonempty in Hp.
    destruct (String.eqb_spec k ""); [contradiction | reflexivity].
  - destruct (String.eqb k ""); eexists; reflexivity.
Qed.

(** ** Conditional routing *)

Section Routing.
Import ConditionalRouting.

Lemma extract_outcome_first_match (response : string) :
  extract_outcome response = first_matching_label response.
Proof.
  unfold extract_outcome, first_matching_label, labels; simpl.
  repeat (match goal with
          | |- context [PyStr.contains ?l response] =>
              destruct (PyStr.contains l response); try reflexivity
          end).
Qed.

Lemma first_matching_label_in (response : string) :
  In (first_matching_label response) labels.
Proof.
  unfold first_matching_label.
  destruct (List.find _ labels) eqn:Hf.
  - apply List.find_some in Hf. tauto.
  - simpl; tauto.
Qed.

(** The calls the second step makes, for each of the five outcomes. *)
Lemma route_calls (outcome input_data : string) (s : St) :
  In outcome labels →
  ∃ ds, calls (world (snd (route outcome input_data s))) = (calls (world s) ++ ds)%list
        ∧ ds ≠ []
        ∧ (ds.*1) `prefix_of` downstream outcome
        ∧ (is_ok (fst (route outcome input_data s)) = true → ds.*1 = downstream outcome).
Proof.
  intros Hin. destruct s as [c w]. simpl in Hin.
  destruct Hin as [<-|[<-|[<-|[<-|[<-|[]]]]]];
    unfold route, downstream; simpl;
    unfold mbind, M_bind, history_append, run, Runner_run; simpl.
  2: {
    destruct (script w (length (calls w)) reviewer_agent _) as [review|e] eqn:Hr;
      simpl.
    - match goal with
      | |- context [script w ?k finalizer_agent ?p] =>
          destruct (script w k finalizer_agent p) eqn:Hf
      end; simpl; eexists [_; _]; rewrite <- app_assoc; simpl;
        (split; [reflexivity |]; split; [discriminate |];
         split; [reflexivity | intros _; reflexivity]).
    - eexists [_]; simpl.
      split; [reflexivity |]; split; [discriminate |].
      split; [exists [finalizer_agent]; reflexivity | discriminate].
  }
  all: match goal with
       | |- context [script ?w ?k ?a ?p] => destruct (script w k a p)
       end; simpl; eexists [_];
       (split; [reflexivity |]; split; [discriminate |];
        split; [reflexivity | intros _; reflexivity]).
Qed.

(** The first step: the processor is called, then the route is taken
    from its answer. *)
Lemma workflow_first_step (input_data response : string) (c : ProcessingContext)
    (w : World string) :
  let prompt := "Process this request: " ++ input_data in
  script w (length (calls w)) processor_agent prompt = Ok response →
  conditional_workflow input_data (mkSt c w)
  = route (extract_outcome response) input_data
      (mkSt (mkContext (request_id c) (user_type c) (priority c)
               (routing_history c ++ ["Started with Processor Agent"]) (created_at c))
            (mkWorld (script w) (calls w ++ [(processor_agent, prompt)]))).
Proof.
  intros prompt Hresp.
  unfold conditional_workflow, mbind, M_bind, history_append, run, Runner_run at 1.
  simpl. fold prompt. rewrite Hresp. reflexivity.
Qed.

End Routing.

(** C1: whatever the processor answers, the outcome is the first of
    SUCCESS_HIGH, SUCCESS_MEDIUM, NEEDS_REVIEW, REQUIRES_ESCALATION, ERROR
    that occurs in the answer (SUCCESS_MEDIUM if none does), and after the
    processor the workflow calls the agents of that outcome and no other:
    finalizer; reviewer then finalizer; human review; supervisor; error
    handler.  The second call of the reviewer route is made when the
    first returns. *)
Theorem conditional_workflow_routes
    (input_data response : string) (c : ConditionalRouting.ProcessingContext)
    (w : World string) :
  let prompt := "Process this request: " ++ input_data in
  let run := ConditionalRouting.conditional_workflow input_data
               (ConditionalRouting.mkSt c w) in
  script w (length (calls w)) ConditionalRouting.processor_agent prompt = Ok response →
  ConditionalRouting.extract_outcome response
    = ConditionalRouting.first_matching_label response
  ∧ ∃ ds,
      calls (ConditionalRouting.world (snd run))
        = (calls w ++ (ConditionalRouting.processor_agent, prompt) :: ds)%list
      ∧ ds ≠ []
      ∧ (ds.*1) `prefix_of`
          ConditionalRouting.downstream (ConditionalRouting.first_matching_label response)
      ∧ (is_ok (fst run) = true →
         ds.*1 = ConditionalRouting.downstream
                   (ConditionalRouting.first_matching_label response)).
Proof.
  intros prompt run Hresp.
  split; [apply extract_outcome_first_match |].
  subst run. rewrite (workflow_first_step _ _ _ _ Hresp).
  rewrite extract_outcome_first_match.
  match goal with
  | |- context [ConditionalRouting.route ?o ?i ?s] =>
      destruct (route_calls o i s (first_matching_label_in response))
        as (ds & Hcalls & Hne & Hpre & Hok)
  end.
  exists ds. simpl in Hcalls. rewrite Hcalls, <- app_assoc. simpl.
  split; [reflexivity |]. split; [exact Hne |]. split; [exact Hpre | exact Hok].
Qed.

Lemma conditional_workflow_routes_witness :
  let w := mkWorld (λ k _ _, match k with
                             | O => Ok "I am not sure what to do with this."
                             | _ => Ok "done"
                             end) [] in
  let c := ConditionalRouting.mkContext "REQ-001" "standard" "normal" [] 0 in
  let response := "I am not sure what to do with this." in
  let prompt := "Process this request: reset my password" in
  let run := ConditionalRouting.conditional_workflow "reset my password"
               (ConditionalRouting.mkSt c w) in
  script w (length (calls w)) ConditionalRouting.processor_agent prompt = Ok response
  ∧ ConditionalRouting.extract_outcome response
    = ConditionalRouting.first_matching_label response
  ∧ ∃ ds,
      calls (ConditionalRouting.world (snd run))
        = (calls w ++ (ConditionalRouting.processor_agent, prompt) :: ds)%list
      ∧ ds ≠ []
      ∧ (ds.*1) `prefix_of`
          ConditionalRouting.downstream (ConditionalRouting.first_matching_label response)
      ∧ (is_ok (fst run) = true →
         ds.*1 = ConditionalRouting.downstream
                   (ConditionalRouting.first_matching_label response)).
Proof.
  intros w c response prompt run. split; [reflexivity |].
  apply (conditional_workflow_routes "reset my password" response c w).
  reflexivity.
Defined.

(** ** Guardrail callbacks *)

Section GuardrailFacts.
Import AdvancedGuardrails.

(** The rule-based result is unsafe whenever its level is critical. *)
Lemma tail_critical_unsafe (max_risk_level : string) (all_violations : list string) :
  risk_level (validate_comprehensive_tail max_risk_level all_violations) = "critical" →
  is_safe (validate_comprehensive_tail max_risk_level all_violations) = false.
Proof. simpl. intros ->. reflexivity. Qed.

(** Past the immediate block the tripwire is the negated verdict of the
    final result, whichever of the three ways produced it. *)
Lemma guardrail_on_tripwire (input_data : string) (basic : InputValidationResult)
    (w : World InputValidationResult) :
  (risk_level basic = "critical" → is_safe basic = false) →
  match fst (guardrail_on input_data basic w) with
  | Ok out => tripwire_triggered out = negb (is_safe (output_info out))
  | Raise e => is_Exception e = false
  end.
Proof.
  intros Hcrit. unfold guardrail_on.
  destruct (String.eqb_spec (risk_level basic) "critical") as [Heq|Hne].
  - simpl. rewrite (Hcrit Heq). reflexivity.
  - unfold mbind, M_bind.
    destruct (String.eqb (risk_level basic) "medium" || String.eqb (risk_level basic) "high");
      [| reflexivity].
    unfold try_except.
    destruct (ai_powered_validation input_data basic w) as [[r|e] w'] eqn:Hai;
      [reflexivity |].
    destruct (is_Exception e) eqn:He; [reflexivity | exact He].
Qed.

End GuardrailFacts.


(** ** Retry loops *)

Section RetryFacts.
Import Retry.
Context {RunResult : Type}.

Lemma range_length (n : Z) : length (range n) = Z.to_nat n.
Proof. unfold range. rewrite length_map, length_seq. reflexivity. Qed.

(** Building the fallback object never succeeds: the new object has no
    attribute [agent]. *)
Lemma create_error_response_raises {S} (message : string) (s : S) :
  _create_error_response (RunResult := RunResult) message s
  = (Raise (Exn AttributeError "'ErrorResult' object has no attribute 'agent'"), s).
Proof. reflexivity. Qed.

(** Neither loop runs the agent more often than there are values of
    [attempt]. *)
Lemma execute_loop_bound (self : RobustAgent) (user_input : string) (attempts : list Z)
    (w : World RunResult) :
  (length (calls (snd (execute_loop self user_input attempts w)))
   ≤ length (calls w) + length attempts)%nat.
Proof.
  revert w. induction attempts as [|attempt rest IH]; intros w; simpl; [lia |].
  destruct (script w (length (calls w)) (agent self) user_input) as [r|e]; simpl.
  - rewrite length_app. simpl. lia.
  - destruct (is_Exception e); [| simpl; rewrite length_app; simpl; lia].
    destruct (attempt =? max_retries self - 1).
    + simpl. rewrite length_app. simpl. lia.
    + etransitivity; [apply IH |]. simpl. rewrite length_app. simpl. lia.
Qed.

Lemma safe_loop_bound (a : Agent) (prompt : string) (n : Z) (attempts : list Z)
    (w : World RunResult) :
  (length (calls (snd (safe_loop a prompt n attempts w)))
   ≤ length (calls w) + length attempts)%nat.
Proof.
  revert w. induction attempts as [|attempt rest IH]; intros w; simpl; [lia |].
  destruct (script w (length (calls w)) a prompt) as [r|e]; simpl.
  - rewrite length_app. simpl. lia.
  - destruct (exn_cls e); simpl; try (rewrite length_app; simpl; lia);
      (destruct (attempt =? n - 1);
       [simpl; rewrite length_app; simpl; lia
       | etransitivity; [apply IH |]; simpl; rewrite length_app; simpl; lia]).
Qed.

(** [safe_agent_execution] makes at most [max_retries] attempts, and when
    each of them raises an [Exception] it returns [None]. *)
Lemma safe_agent_execution_attempts (a : Agent) (prompt : string) (n : Z)
    (w : World RunResult) :
  (attempts_made (safe_agent_execution a prompt n) w ≤ Z.to_nat n)%nat.
Proof.
  unfold attempts_made, safe_agent_execution.
  pose proof (safe_loop_bound a prompt n (range n) w) as H.
  rewrite range_length in H. lia.
Qed.

Lemma execute_with_retry_attempts (self : RobustAgent) (user_input : string)
    (w : World RunResult) :
  (attempts_made (execute_with_retry self user_input) w ≤ Z.to_nat (max_retries self))%nat.
Proof.
  unfold attempts_made, execute_with_retry.
  pose proof (execute_loop_bound self user_input (range (max_retries self)) w) as H.
  rewrite range_length in H. lia.
Qed.

Lemma safe_loop_all_fail (a : Agent) (prompt : string) (n : Z) (attempts : list Z)
    (w : World RunResult) :
  (∀ k, ∃ e, script w k a prompt = Raise e ∧ is_Exception e = true) →
  fst (safe_loop a prompt n attempts w) = Ok None.
Proof.
  intros Hfail. revert w Hfail.
  induction attempts as [|attempt rest IH]; intros w Hfail; simpl; [reflexivity |].
  destruct (Hfail (length (calls w))) as (e & -> & He).
  unfold is_Exception in He.
  destruct (exn_cls e); try discriminate; try reflexivity;
    (destruct (attempt =? n - 1); [reflexivity | apply IH; exact Hfail]).
Qed.

End RetryFacts.

(** C3: the retry loop of [RobustAgent.execute_with_retry] stops after
    [max_retries] attempts, but where the claim has it return a
    constructed error response the call ends in [AttributeError]: with
    the default of three retries and a runner that fails each time, three
    attempts are made and building the fallback object raises. *)
Theorem execute_with_retry_fallback_raises :
  let self := Retry.RobustAgent_default
                (mkAgent "CustomerService" "Provide helpful customer service responses.") in
  let run := Retry.execute_with_retry self "Help me with my account" always_max_turns in
  length (calls (snd run)) = 3%nat
  ∧ fst run = Raise (Exn AttributeError "'ErrorResult' object has no attribute 'agent'")
  ∧ fst (Retry.safe_agent_execution (Retry.agent self) "Help me with my account" 3
           always_max_turns) = Ok None.
Proof. repeat split; reflexivity. Qed.

(** ** Length validation *)

Section LengthFacts.
Import AdvancedGuardrails.

(** Below the upper character limit the word-count check only raises
    the level. *)
Lemma word_check_monotone_below_limit (input_text : string) :
  PyStr.len input_text ≤ 10000 →
  ∃ a b, severity (snd (char_check input_text)) = Some a
         ∧ severity (snd (validate_input_length input_text)) = Some b
         ∧ a ≤ b.
Proof.
  intros Hlen. unfold validate_input_length, char_check.
  destruct (10000 <? PyStr.len input_text) eqn:Hhigh; [lia |].
  destruct (5000 <? PyStr.len input_text), (2000 <? PyStr.split_len input_text);
    simpl; eexists _, _; (split; [reflexivity |]); (split; [reflexivity |]); lia.
Qed.

End LengthFacts.

(** C8: on a text of more than 10000 characters and more than 2000 words
    the character-count check assigns "high" and the word-count check
    then stores [max("high", "medium")], which on strings is "medium":
    the level drops from severity 2 to severity 1. *)
Theorem word_check_lowers_high_risk :
  PyStr.len many_short_words = 10002
  ∧ PyStr.split_len many_short_words = 5001
  ∧ snd (AdvancedGuardrails.char_check many_short_words) = "high"
  ∧ snd (AdvancedGuardrails.validate_input_length many_short_words) = "medium"
  ∧ AdvancedGuardrails.severity "high" = Some 2
  ∧ AdvancedGuardrails.severity "medium" = Some 1.
Proof. vm_compute. repeat split; reflexivity. Qed.

(** ** The pattern matcher *)

Section RegexFacts.
Import Re.

Lemma app_cons (c : ascii) (a b : string) : String c a ++ b = String c (a ++ b).
Proof. reflexivity. Qed.

Lemma take_drop (n : nat) (s : string) : s = PyStr.take n s ++ PyStr.drop n s.
Proof.
  revert s. induction n as [|n IH]; intros s; [reflexivity |].
  destruct s as [|c s]; [reflexivity |]. simpl. rewrite app_cons. f_equal. apply IH.
Qed.

Lemma take_app_length (a b : string) : PyStr.take (String.length a) (a ++ b) = a.
Proof.
  induction a as [|c a IH]; [destruct b; reflexivity |].
  rewrite app_cons. simpl. f_equal. exact IH.
Qed.

Lemma drop_app_length (a b : string) : PyStr.drop (String.length a) (a ++ b) = b.
Proof. induction a as [|c a IH]; [reflexivity | rewrite app_cons; exact IH]. Qed.

Lemma take_length (n : nat) (s : string) :
  (n ≤ String.length s)%nat → String.length (PyStr.take n s) = n.
Proof.
  revert s. induction n as [|n IH]; intros s Hn; [reflexivity |].
  destruct s as [|c s]; simpl in *; [lia |]. f_equal. apply IH. lia.
Qed.

Lemma app_length (a b : string) :
  String.length (a ++ b) = (String.length a + String.length b)%nat.
Proof.
  induction a as [|c a IH]; [reflexivity |]. rewrite app_cons. simpl. f_equal. exact IH.
Qed.

(** A repetition in front of a continuation that does not look back
    succeeds exactly when some admissible count of leading characters of
    the class leaves a text on which the continuation succeeds. *)
Lemma rep_succeeds_iff (p : ascii → bool)
    (cont : option ascii → string → option string) (lo : nat) (hi : option nat) :
  (∀ q1 q2 t, cont q1 t = cont q2 t) →
  ∀ (s : string) (count : nat) (prev : option ascii),
    within count hi →
    (is_Some (rep p cont lo hi count prev s)
     ↔ ∃ n, (n ≤ String.length s)%nat
            ∧ Validation.all_chars p (PyStr.take n s) = true
            ∧ (lo ≤ count + n)%nat ∧ within (count + n) hi
            ∧ is_Some (cont None (PyStr.drop n s))).
Proof.
  intros Hcont. induction s as [|c s IH]; intros count prev Hw.
  - simpl. split.
    + destruct (Nat.leb_spec lo count) as [Hlo|Hlo]; [| intros [? [=]]].
      intros Hs. exists O. rewrite Nat.add_0_r.
      rewrite (Hcont None prev). simpl. repeat split; try done.
    + intros (n & Hn & _ & Hlo & _ & Hs). assert (n = O) as -> by lia.
      rewrite Nat.add_0_r in Hlo. apply Nat.leb_le in Hlo. rewrite Hlo.
      rewrite (Hcont prev None). exact Hs.
  - simpl rep.
    assert (is_Some (if (lo <=? count)%nat then cont prev (String c s) else None)
            ↔ (lo ≤ count)%nat ∧ is_Some (cont None (String c s))) as Hstop.
    { destruct (Nat.leb_spec lo count) as [Hlo|Hlo].
      - rewrite (Hcont prev None). tauto.
      - split; [intros [? [=]] | lia]. }
    destruct (p c && below count hi) eqn:Hstep.
    + apply andb_prop in Hstep as [Hp Hb].
      assert (within (S count) hi) as Hw'.
      { unfold within, below in *. destruct hi; [apply Nat.ltb_lt in Hb; lia | done]. }
      specialize (IH (S count) (Some c) Hw').
      destruct (rep p cont lo hi (S count) (Some c) s) as [r|] eqn:Hrec.
      * split; [intros _ | intros _; eexists; reflexivity].
        destruct (proj1 IH (ex_intro _ r eq_refl)) as (n & Hn & Hall & Hlo & Hhi & Hs).
        exists (S n). simpl. rewrite Hp, Hall.
        replace (count + S n)%nat with (S count + n)%nat by lia.
        repeat split; try done; lia.
      * rewrite Hstop. split.
        -- intros [Hlo Hs]. exists O. rewrite Nat.add_0_r. simpl.
           repeat split; try done; lia.
        -- intros (n & Hn & Hall & Hlo & Hhi & Hs). destruct n as [|n].
           ++ rewrite Nat.add_0_r in Hlo. simpl in Hs. done.
           ++ exfalso. simpl in Hn, Hall, Hs. apply andb_prop in Hall as [_ Hall].
              assert (is_Some (None : option string)) as [? [=]].
              apply IH. exists n.
              replace (S count + n)%nat with (count + S n)%nat by lia.
              repeat split; try done; lia.
    + rewrite Hstop. split.
      * intros [Hlo Hs]. exists O. rewrite Nat.add_0_r. simpl.
        repeat split; try done; lia.
      * intros (n & Hn & Hall & Hlo & Hhi & Hs). destruct n as [|n].
        -- rewrite Nat.add_0_r in Hlo. simpl in Hs. done.
        -- exfalso. simpl in Hall. apply andb_prop in Hall as [Hp _].
           rewrite Hp in Hstep. simpl in Hstep.
           unfold within, below in *. destruct hi as [h|]; [| discriminate].
           apply Nat.ltb_ge in Hstep. lia.
Qed.

Lemma rep_prev_irrelevant (p : ascii → bool)
    (cont : option ascii → string → option string) (lo : nat) (hi : option nat) :
  (∀ q1 q2 t, cont q1 t = cont q2 t) →
  ∀ s count q1 q2, rep p cont lo hi count q1 s = rep p cont lo hi count q2 s.
Proof.
  intros Hcont s count q1 q2. destruct s as [|c s]; simpl;
    rewrite (Hcont q1 q2); reflexivity.
Qed.

Lemma exec_prev_irrelevant (re : list item) :
  forallb (λ i, negb (looks_back i)) re = true →
  ∀ q1 q2 t, exec re q1 t = exec re q2 t.
Proof.
  induction re as [|i re IH]; intros Hfree q1 q2 t; [reflexivity |].
  simpl in Hfree. apply andb_prop in Hfree as [Hi Hre].
  destruct i; simpl in Hi; try discriminate; simpl.
  - apply rep_prev_irrelevant. exact (IH Hre).
  - rewrite (IH Hre q1 q2). reflexivity.
Qed.

(** A repetition at the head of a pattern splits the text. *)
Lemma exec_rep_iff (p : ascii → bool) (lo : nat) (hi : option nat) (k : list item)
    (q : option ascii) (s : string) :
  forallb (λ i, negb (looks_back i)) k = true →
  (is_Some (exec (Rep p lo hi :: k) q s)
   ↔ ∃ a b, s = a ++ b ∧ Validation.all_chars p a = true
            ∧ (lo ≤ String.length a)%nat ∧ within (String.length a) hi
            ∧ is_Some (exec k None b)).
Proof.
  intros Hfree. simpl.
  rewrite (rep_succeeds_iff p (exec k) lo hi (exec_prev_irrelevant k Hfree) s O q)
    by (destruct hi; simpl; [lia | done]).
  split.
  - intros (n & Hn & Hall & Hlo & Hhi & Hs).
    exists (PyStr.take n s), (PyStr.drop n s).
    rewrite (take_length n s Hn). simpl in Hlo, Hhi.
    repeat split; try done. apply take_drop.
  - intros (a & b & -> & Hall & Hlo & Hhi & Hs).
    exists (String.length a). rewrite take_app_length, drop_app_length, app_length.
    simpl. repeat split; try done. lia.
Qed.

Lemma all_chars_single (c : ascii) (a : string) :
  Validation.all_chars (Ascii.eqb c) a = true → String.length a = 1%nat →
  a = String c "".
Proof.
  destruct a as [|x [|y a]]; simpl; try discriminate.
  rewrite andb_true_r. intros Hx _. apply Ascii.eqb_eq in Hx as ->. reflexivity.
Qed.

(** A literal character at the head of a pattern. *)
Lemma exec_lit_iff (c : ascii) (k : list item) (q : option ascii) (s : string) :
  forallb (λ i, negb (looks_back i)) k = true →
  (is_Some (exec (lit c :: k) q s) ↔ ∃ b, s = String c b ∧ is_Some (exec k None b)).
Proof.
  intros Hfree. unfold lit. rewrite exec_rep_iff by exact Hfree. split.
  - intros (a & b & -> & Hall & Hlo & Hhi & Hs). simpl in Hhi.
    rewrite (all_chars_single c a Hall) by lia. exists b. done.
  - intros (b & -> & Hs). exists (String c ""), b. simpl.
    rewrite Ascii.eqb_refl. repeat split; try done; lia.
Qed.

Lemma exec_eol_iff (q : option ascii) (s : string) :
  is_Some (exec [Eol] q s) ↔ s = "" ∨ s = newline.
Proof.
  simpl. destruct (String.eqb_spec s "") as [->|Hne]; simpl.
  - split; [intros _; left; reflexivity | intros _; eexists; reflexivity].
  - destruct (String.eqb_spec s newline) as [->|Hnl]; simpl.
    + split; [intros _; right; reflexivity | intros _; eexists; reflexivity].
    + split; [intros [? [=]] | intros [?|?]; contradiction].
Qed.

End RegexFacts.

Section EmailPattern.
Import Re Validation.

Lemma app_assoc_str (a b c : string) : (a ++ b) ++ c = a ++ (b ++ c).
Proof.
  induction a as [|x a IH]; [reflexivity |]. rewrite !app_cons. f_equal. exact IH.
Qed.

Lemma app_empty_r (a : string) : a ++ "" = a.
Proof. induction a as [|x a IH]; [reflexivity |]. rewrite app_cons. f_equal. exact IH. Qed.

Lemma length_pos_nonempty (a : string) : (1 ≤ String.length a)%nat ↔ a ≠ "".
Proof. destruct a; simpl; split; intros H; try lia; try done. Qed.

(** What [re.match] accepts: an address of the claimed shape, or such an
    address followed by one line feed. *)
Lemma pattern_accepts_iff (email : string) :
  matches pattern email = true
  ↔ email_shape email ∨ ∃ address, email = address ++ newline ∧ email_shape address.
Proof.
  unfold matches, pattern.
  set (k := [plus HandoffFilters.local_char; lit "@"; plus HandoffFilters.domain_char;
             lit "."; at_least 2 PyStr.is_alpha; Eol]).
  change (exec (Bol :: k) None email) with (exec k None email).
  transitivity (is_Some (exec k None email)).
  { destruct (exec k None email) as [r|].
    - split; [intros _; exists r; reflexivity | reflexivity].
    - split; [discriminate | intros [? [=]]]. }
  subst k. unfold plus, at_least.
  rewrite exec_rep_iff by reflexivity. split.
  - intros (loc & b1 & -> & Hloc & Hlen1 & _ & H1).
    apply exec_lit_iff in H1; [| reflexivity].
    destruct H1 as (b2 & -> & H2).
    apply exec_rep_iff in H2; [| reflexivity].
    destruct H2 as (dom & b3 & -> & Hdom & Hlen2 & _ & H3).
    apply exec_lit_iff in H3; [| reflexivity].
    destruct H3 as (b4 & -> & H4).
    apply exec_rep_iff in H4; [| reflexivity].
    destruct H4 as (tld & b5 & -> & Htld & Hlen3 & _ & H5).
    apply exec_eol_iff in H5.
    apply length_pos_nonempty in Hlen1, Hlen2.
    assert (email_shape (loc ++ "@" ++ dom ++ "." ++ tld)) as Hshape.
    { exists loc, dom, tld. done. }
    destruct H5 as [->| ->].
    + left. rewrite app_empty_r. exact Hshape.
    + right. exists (loc ++ "@" ++ dom ++ "." ++ tld). split; [| exact Hshape].
      rewrite !app_assoc_str. reflexivity.
  - assert (∀ loc dom tld tail,
              loc ≠ "" → all_chars HandoffFilters.local_char loc = true →
              dom ≠ "" → all_chars HandoffFilters.domain_char dom = true →
              (2 ≤ String.length tld)%nat → all_chars PyStr.is_alpha tld = true →
              tail = "" ∨ tail = newline →
              ∃ a b, loc ++ "@" ++ dom ++ "." ++ tld ++ tail = a ++ b
                     ∧ all_chars HandoffFilters.local_char a = true
                     ∧ (1 ≤ String.length a)%nat ∧ within (String.length a) None
                     ∧ is_Some (exec [lit "@"; Rep HandoffFilters.domain_char 1 None;
                                      lit "."; Rep PyStr.is_alpha 2 None; Eol] None b))
      as Hbuild.
    { intros loc dom tld tail Hl1 Hl2 Hd1 Hd2 Ht1 Ht2 Htail.
      exists loc, ("@" ++ dom ++ "." ++ tld ++ tail).
      apply length_pos_nonempty in Hl1, Hd1.
      repeat split; try done.
      apply exec_lit_iff; [reflexivity |]. exists (dom ++ "." ++ tld ++ tail).
      split; [reflexivity |].
      apply exec_rep_iff; [reflexivity |]. exists dom, ("." ++ tld ++ tail).
      repeat split; try done.
      apply exec_lit_iff; [reflexivity |]. exists (tld ++ tail).
      split; [reflexivity |].
      apply exec_rep_iff; [reflexivity |]. exists tld, tail.
      repeat split; try done.
      apply exec_eol_iff. exact Htail. }
    intros [(loc & dom & tld & -> & Hl1 & Hl2 & Hd1 & Hd2 & Ht1 & Ht2)
           |(address & -> & loc & dom & tld & -> & Hl1 & Hl2 & Hd1 & Hd2 & Ht1 & Ht2)].
    + pose proof (Hbuild loc dom tld "" Hl1 Hl2 Hd1 Hd2 Ht1 Ht2 (or_introl eq_refl)) as H.
      rewrite app_empty_r in H. exact H.
    + rewrite !app_assoc_str. apply Hbuild; try done. right; reflexivity.
Qed.

End EmailPattern.

(** ** E-mail validation *)

Section EmailFacts.
Import Validation.

Lemma last_char_app (a b : string) : b ≠ "" → PyStr.last_char (a ++ b) = PyStr.last_char b.
Proof.
  intros Hb. induction a as [|c a IH]; simpl; [reflexivity |].
  rewrite IH. destruct (a ++ b) eqn:Hab; [| reflexivity].
  destruct a; simpl in Hab; [contradiction | discriminate].
Qed.

Lemma last_char_none (s : string) : PyStr.last_char s = None → s = "".
Proof.
  induction s as [|c s IH]; [reflexivity |]. simpl.
  destruct s; [discriminate |]. intros H. specialize (IH H). discriminate.
Qed.

Lemma all_chars_last (p : ascii → bool) (s : string) (c : ascii) :
  all_chars p s = true → PyStr.last_char s = Some c → p c = true.
Proof.
  induction s as [|x s IH]; simpl; [discriminate |].
  intros Hall Hlast. apply andb_prop in Hall as [Hx Hs].
  destruct s; [injection Hlast as <-; exact Hx | exact (IH Hs Hlast)].
Qed.

(** A string of the claimed shape ends in a letter. *)
Lemma email_shape_ends_in_letter (s : string) :
  email_shape s → ∃ c, PyStr.last_char s = Some c ∧ PyStr.is_alpha c = true.
Proof.
  intros (loc & dom & tld & -> & _ & _ & _ & _ & Hlen & Htld).
  assert (tld ≠ "") as Hne by (destruct tld; [simpl in Hlen; lia | discriminate]).
  rewrite !last_char_app by (try assumption; destruct dom; discriminate).
  destruct (PyStr.last_char tld) as [c|] eqn:Hc.
  - exists c. split; [reflexivity | exact (all_chars_last _ _ _ Htld Hc)].
  - apply last_char_none in Hc. contradiction.
Qed.

End EmailFacts.

(** C9: the ["email"] entry is the input, but ["is_valid_format"] is also
    true for a well-formed address followed by one line feed, because [$]
    matches before a final newline; that string is not of the shape
    local-part@domain.tld.  In general the flag is true exactly for the
    strings of that shape and for those followed by one line feed. *)
Theorem validate_email_accepts_trailing_newline :
  (∀ email : string,
     Validation.validate_email email !! "email" = Some (VStr email)
     ∧ (Validation.validate_email email !! "is_valid_format" = Some (VBool true)
        ↔ Validation.email_shape email
          ∨ ∃ address, email = address ++ Re.newline
                       ∧ Validation.email_shape address))
  ∧ Validation.validate_email address_with_newline !! "is_valid_format"
    = Some (VBool true)
  ∧ ¬ Validation.email_shape address_with_newline.
Proof.
  split; [| split; [reflexivity |]].
  - intros email. split; [reflexivity |].
    rewrite <- pattern_accepts_iff. unfold Validation.validate_email.
    rewrite lookup_insert_eq.
    destruct (Re.matches Validation.pattern email); split; congruence.
  - intros Hshape. apply email_shape_ends_in_letter in Hshape as (c & Hc & Halpha).
    vm_compute in Hc. injection Hc as <-. vm_compute in Halpha. discriminate.
Qed.

(** The cases of the repository's own test (tests/test_tools.py). *)
Example validate_email_test_cases :
  Forall (λ '(email, expected),
            Validation.validate_email email !! "is_valid_format" = Some (VBool expected))
    [ ("user@example.com", true); ("invalid.email", false); ("user@", false);
      ("@example.com", false); ("user.name+tag@example.com", true) ].
Proof. repeat constructor. Qed.

(** ** Summaries *)

Section SummaryFacts.
Import DataTools.

Lemma fold_min_spec (rest : list Z) (x : Z) :
  let m := fold_left (λ best y, if y <? best then y else best) rest x in
  m ≤ x ∧ (∀ y, In y rest → m ≤ y) ∧ (m = x ∨ In m rest).
Proof.
  revert x. induction rest as [|a rest IH]; intros x; simpl.
  - split; [lia |]. split; [intros y [] | left; reflexivity].
  - destruct (Z.ltb_spec a x) as [Hlt|Hge].
    + destruct (IH a) as (H1 & H2 & H3).
      split; [lia |].
      split; [| destruct H3 as [H3|H3];
                [right; left; symmetry; exact H3 | right; right; exact H3]].
      intros y [<-|Hy]; [exact H1 | exact (H2 y Hy)].
    + destruct (IH x) as (H1 & H2 & H3).
      split; [exact H1 |]. split; [| tauto].
      intros y [<-|Hy]; [lia | exact (H2 y Hy)].
Qed.

Lemma fold_max_spec (rest : list Z) (x : Z) :
  let m := fold_left (λ best y, if best <? y then y else best) rest x in
  x ≤ m ∧ (∀ y, In y rest → y ≤ m) ∧ (m = x ∨ In m rest).
Proof.
  revert x. induction rest as [|a rest IH]; intros x; simpl.
  - split; [lia |]. split; [intros y [] | left; reflexivity].
  - destruct (Z.ltb_spec x a) as [Hlt|Hge].
    + destruct (IH a) as (H1 & H2 & H3).
      split; [lia |].
      split; [| destruct H3 as [H3|H3];
                [right; left; symmetry; exact H3 | right; right; exact H3]].
      intros y [<-|Hy]; [exact H1 | exact (H2 y Hy)].
    + destruct (IH x) as (H1 & H2 & H3).
      split; [exact H1 |]. split; [| tauto].
      intros y [<-|Hy]; [lia | exact (H2 y Hy)].
Qed.

(** [sum] adds up the elements. *)
Lemma fold_add_shift (data : list Z) (acc : Z) :
  fold_left Z.add data acc = acc + fold_left Z.add data 0.
Proof.
  revert acc. induction data as [|y data IH]; intros acc; simpl; [lia |].
  rewrite (IH (acc + y)), (IH (0 + y)). lia.
Qed.

Lemma sum_cons (x : Z) (data : list Z) : sum (x :: data) = x + sum data.
Proof. unfold sum. simpl. apply fold_add_shift. Qed.

Lemma true_div_nonzero (a b : Z) :
  b ≠ 0 → ∃ q, true_div a b = Ok q ∧ (q * inject_Z b == inject_Z a)%Q.
Proof.
  intros Hb. unfold true_div. destruct (Z.eqb_spec b 0) as [|_]; [contradiction |].
  eexists. split; [reflexivity |].
  rewrite Qmult_comm. apply Qmult_div_r. unfold Qeq. simpl. lia.
Qed.

End SummaryFacts.


(** ** Key validation *)

Section KeyValidationFacts.
Import KeyValidation.
Context {KeyStatus KeyScope Mgr : Type} `{EqDecision KeyStatus}.
Variable ACTIVE EXPIRED : KeyStatus.
Variable status_value : KeyStatus → string.
Variable scope_value : KeyScope → string.
Variable _validate_key_format : string → bool.
Variable _hash_key : string → string.
Variable _find_key_by_hash : Mgr → string → option (@APIKeyInfo KeyStatus KeyScope).
Variable _log_security_event : string → gmap string value → Mgr → Mgr.
Variable _update_key_status : string → KeyStatus → Mgr → Mgr.
Variable _check_rate_limit : string → Z → Mgr → bool * Mgr.
Variable _check_scope_permission : KeyScope → KeyScope → bool.
Variable _update_usage_metrics : string → Mgr → Mgr.
Variable now : Z.
Variable set_repr : gset string → string.

Let validate := validate_key ACTIVE EXPIRED status_value scope_value
  _validate_key_format _hash_key _find_key_by_hash _log_security_event
  _update_key_status _check_rate_limit _check_scope_permission
  _update_usage_metrics now set_repr.

(** A key without a tool list passes the check whatever is required. *)
Lemma tool_check_empty_allowed (required_tools : option (list string)) :
  tool_check required_tools [] = None.
Proof.
  unfold tool_check. destruct required_tools as [[|t required]|]; try reflexivity.
  rewrite andb_false_r. reflexivity.
Qed.

(** The check denies exactly when something is required, the key has a
    tool list, and a required tool is not on it. *)
Lemma tool_check_denies (required_tools : option (list string)) (allowed : list string)
    (missing : gset string) :
  tool_check required_tools allowed = Some missing
  ↔ ∃ required, required_tools = Some required ∧ required ≠ [] ∧ allowed ≠ []
      ∧ missing = list_to_set required ∖ list_to_set allowed
      ∧ ∃ t, t ∈ required ∧ t ∉ allowed.
Proof.
  unfold tool_check. split.
  - destruct required_tools as [[|t0 required]|]; try discriminate.
    destruct (bool_decide _) eqn:Hm; simpl; [discriminate |].
    destruct (bool_decide (allowed = [])) eqn:Ha; simpl; [discriminate |].
    intros [= <-]. apply bool_decide_eq_false in Hm, Ha.
    exists (t0 :: required). repeat split; try done.
    apply set_choose_L in Hm as [t Ht]. exists t.
    apply elem_of_difference in Ht as [Hin Hnot].
    rewrite !elem_of_list_to_set in *. done.
  - intros (required & -> & Hreq & Hall & -> & t & Hin & Hnot).
    destruct required as [|t0 required]; [done |].
    assert ((list_to_set (t0 :: required) : gset string) ∖ list_to_set allowed ≠ ∅) as Hne.
    { intros Hempty. assert (t ∈ (∅ : gset string)) as Habs; [| set_solver].
      rewrite <- Hempty. apply elem_of_difference.
      rewrite !elem_of_list_to_set. done. }
    rewrite (bool_decide_eq_false_2 _ Hne), (bool_decide_eq_false_2 _ Hall). reflexivity.
Qed.

(** No other failure of [validate_key] carries the tool message. *)
Lemma tool_message_origin (api_key : string) (required_scope : option KeyScope)
    (required_tools : option (list string)) (client_ip : option string) (m : Mgr)
    (msg : string) :
  (validate api_key required_scope required_tools client_ip m).1.1.2 = Some msg →
  PyStr.startswith msg "Tool access denied" = true →
  ∃ key_info missing,
    _find_key_by_hash m (_hash_key api_key) = Some key_info
    ∧ tool_check required_tools (allowed_tools key_info) = Some missing
    ∧ msg = "Tool access denied: " ++ set_repr missing.
Proof.
  unfold validate, validate_key, denied.
  destruct (_validate_key_format api_key); simpl;
    [| intros [= <-]; discriminate].
  destruct (_find_key_by_hash m (_hash_key api_key)) as [key_info|];
    [| intros [= <-]; discriminate].
  destruct (bool_decide (status key_info = ACTIVE)); simpl;
    [| intros [= <-]; discriminate].
  destruct (match expires_at key_info with Some t => t <? now | None => false end);
    [intros [= <-]; discriminate |].
  match goal with
  | |- context [if ?b then _ else _] => destruct b; [intros [= <-]; discriminate |]
  end.
  destruct (_check_rate_limit _ _ m) as [within m']. 
  destruct within; simpl; [| intros [= <-]; discriminate].
  match goal with
  | |- context [if ?b then _ else _] => destruct b; [intros [= <-]; discriminate |]
  end.
  destruct (tool_check required_tools (allowed_tools key_info)) as [missing|] eqn:Ht;
    simpl; [| discriminate].
  intros [= <-] _. exists key_info, missing. done.
Qed.

(** C7: a key whose [allowed_tools] is empty passes the tool check
    whatever tools are required; [validate_key] returns the failure
    "Tool access denied" only for a key with a non-empty [allowed_tools]
    from which at least one required tool is missing. *)
Theorem tool_access_denied_only_with_tool_list :
  (∀ required_tools : option (list string), tool_check required_tools [] = None)
  ∧ ∀ (api_key : string) (required_scope : option KeyScope)
      (required_tools : option (list string)) (client_ip : option string)
      (m : Mgr) (msg : string),
      (validate api_key required_scope required_tools client_ip m).1.1.2 = Some msg →
      PyStr.startswith msg "Tool access denied" = true →
      ∃ key_info required t,
        _find_key_by_hash m (_hash_key api_key) = Some key_info
        ∧ allowed_tools key_info ≠ []
        ∧ required_tools = Some required
        ∧ t ∈ required ∧ t ∉ allowed_tools key_info.
Proof.
  split; [exact tool_check_empty_allowed |].
  intros api_key required_scope required_tools client_ip m msg Hmsg Hprefix.
  destruct (tool_message_origin _ _ _ _ _ _ Hmsg Hprefix)
    as (key_info & missing & Hfind & Hcheck & _).
  apply tool_check_denies in Hcheck
    as (required & -> & _ & Hall & _ & t & Hin & Hnot).
  exists key_info, required, t. done.
Qed.

End KeyValidationFacts.

Lemma tool_access_denied_only_with_tool_list_witness :
  let validate := KeyValidation.validate_key true false
    (λ b : bool, if b then "active" else "expired") (λ _ : unit, "read_only")
    (λ k, PyStr.startswith k "sk_") (λ k, "h:" ++ k) demo_find
    (λ _ _ m, m) (λ _ _ m, m) (λ _ _ m, (true, m)) (λ _ _, true) (λ _ m, m)
    0 demo_set_repr in
  let result := validate "sk_live_1" None (Some ["search"; "delete"]) None tt in
  result.1.1.2 = Some "Tool access denied: delete"
  ∧ KeyValidation.tool_check (Some ["search"; "delete"]) [] = None
  ∧ ∃ key_info required t,
      demo_find tt ("h:" ++ "sk_live_1") = Some key_info
      ∧ KeyValidation.allowed_tools key_info ≠ []
      ∧ Some ["search"; "delete"] = Some required
      ∧ t ∈ required ∧ t ∉ KeyValidation.allowed_tools key_info.
Proof.
  intros validate result.
  assert (result.1.1.2 = Some "Tool access denied: delete") as Hmsg
    by (vm_compute; reflexivity).
  split; [exact Hmsg |].
  pose proof (tool_access_denied_only_with_tool_list true false
                (λ b : bool, if b then "active" else "expired") (λ _ : unit, "read_only")
                (λ k, PyStr.startswith k "sk_") (λ k, "h:" ++ k) demo_find
                (λ _ _ m, m) (λ _ _ m, m) (λ _ _ m, (true, m)) (λ _ _, true) (λ _ m, m)
                0 demo_set_repr) as [Hempty Honly].
  split; [exact (Hempty _) |].
  exact (Honly "sk_live_1" None (Some ["search"; "delete"]) None tt
           "Tool access denied: delete" Hmsg eq_refl).
Defined.

(** ** The security wrapper *)

Section SecurityFacts.
Import Security.
Variable entry_head : string → string → gmap string value → gmap string value.

Lemma first_blocked_none (patterns : list string) (user_input : string) :
  first_blocked patterns user_input = None
  ↔ ∀ pattern, pattern ∈ patterns →
      PyStr.contains (PyStr.lower pattern) (PyStr.lower user_input) = false.
Proof.
  induction patterns as [|p patterns IH]; simpl.
  - split; [intros _ pattern Hin; inversion Hin | reflexivity].
  - destruct (PyStr.contains (PyStr.lower p) (PyStr.lower user_input)) eqn:Hp.
    + split; [discriminate |]. intros Hall.
      rewrite (Hall p) in Hp by constructor. discriminate.
    + rewrite IH. split.
      * intros Hall pattern Hin. inversion Hin; subst; auto.
      * intros Hall pattern Hin. apply Hall. constructor. exact Hin.
Qed.

Lemma first_blocked_some (patterns : list string) (user_input p : string) :
  first_blocked patterns user_input = Some p →
  p ∈ patterns ∧ PyStr.contains (PyStr.lower p) (PyStr.lower user_input) = true.
Proof.
  induction patterns as [|q patterns IH]; simpl; [discriminate |].
  destruct (PyStr.contains (PyStr.lower q) (PyStr.lower user_input)) eqn:Hq.
  - intros [= <-]. split; [constructor | exact Hq].
  - intros H. destruct (IH H) as [Hin Hc]. split; [constructor; exact Hin | exact Hc].
Qed.

(** Validation fails exactly on the inputs the claim names. *)
Lemma validate_input_fails_iff (self : SecureAgentWrapper) (user_input : string) :
  fst (validate_input self user_input) = false
  ↔ has_blocked_pattern self user_input ∨ too_long self user_input.
Proof.
  unfold validate_input, has_blocked_pattern, too_long.
  destruct (first_blocked _ user_input) as [p|] eqn:Hb; simpl.
  - split; [intros _ | reflexivity]. left.
    exists p. exact (first_blocked_some _ _ _ Hb).
  - rewrite first_blocked_none in Hb.
    destruct (Z.ltb_spec (get (max_input_length (policies self)) 1000)
                         (PyStr.len user_input)); simpl.
    + split; [intros _; right; assumption | reflexivity].
    + split; [discriminate |].
      intros [(pattern & Hin & Hc)|Hlong]; [| lia].
      rewrite (Hb pattern Hin) in Hc. discriminate.
Qed.


End SecurityFacts.


(** ** The handoff filter *)

Section FilterFacts.
Import HandoffFilters.

Lemma filter_message_ok (message : gmap string value) :
  has_text message →
  ∃ filtered, filter_message message = Ok filtered ∧ filtered_as message filtered.
Proof.
  intros Htext. unfold filter_message, filtered_as.
  destruct (is_user message) eqn:Hu.
  - destruct (Htext Hu) as [content Hc]. rewrite Hc.
    eexists. split; [reflexivity |]. split; [discriminate |].
    intros _. exists content. split; [reflexivity |].
    split; [apply lookup_insert_eq |].
    intros key Hkey. apply lookup_insert_ne. congruence.
  - exists message. split; [reflexivity |]. split; [reflexivity | discriminate].
Qed.

(** The loop appends one filtered message per message, in order. *)
Lemma filter_loop_ok (history acc : list (gmap string value)) :
  Forall has_text history →
  ∃ out, filter_loop history acc = Ok (acc ++ out)%list
         ∧ Forall2 filtered_as history out.
Proof.
  intros Hall. revert acc.
  induction Hall as [|message rest Hm _ IH]; intros acc; simpl.
  - exists []. rewrite app_nil_r. split; [reflexivity | constructor].
  - destruct (filter_message_ok message Hm) as (filtered & -> & Hf). simpl.
    destruct (IH (acc ++ [filtered])%list) as (out & -> & Hout).
    exists (filtered :: out). rewrite <- app_assoc. split; [reflexivity |].
    constructor; assumption.
Qed.

End FilterFacts.



(** On the demonstration history the user turn loses both numbers and
    the assistant turn keeps its phone number. *)
Example filter_sensitive_data_demo :
  HandoffFilters.filter_sensitive_data demo_history
  = Ok [ {[ "role" := VStr "user";
            "content" := VStr "My card is [CARD-REDACTED] and SSN [SSN-REDACTED]." ]};
         {[ "role" := VStr "assistant"; "content" := VStr "Call 555-123-4567" ]} ].
Proof. vm_compute. reflexivity. Qed.


(** * Further properties *)

(** ** The tool filter and the handoff tools *)

Section HandoffToolsFacts.
Import HandoffFilters HandoffTools.

Lemma remove_loop_filter (history acc : list (gmap string value)) :
  remove_loop history acc
  = (acc ++ List.filter (λ m, negb (is_tool_message m)) history)%list.
Proof.
  revert acc. induction history as [|m rest IH]; intros acc; simpl.
  - rewrite app_nil_r. reflexivity.
  - destruct (is_tool_message m); simpl; rewrite IH; [reflexivity |].
    rewrite <- app_assoc. reflexivity.
Qed.

Lemma filter_sublist (f : gmap string value → bool) (l : list (gmap string value)) :
  List.filter f l `sublist_of` l.
Proof.
  induction l as [|m l IH]; simpl; [constructor |].
  destruct (f m); [apply sublist_skip | apply sublist_cons]; exact IH.
Qed.

(** Redaction does not touch what the tool filter looks at. *)
Lemma filter_message_keeps_tool_status (message filtered : gmap string value) :
  filter_message message = Ok filtered →
  is_tool_message filtered = is_tool_message message.
Proof.
  unfold filter_message. destruct (is_user message); [| intros [= <-]; reflexivity].
  destruct (message !! "content") as [[| | |content|]|]; try discriminate.
  intros [= <-]. unfold is_tool_message.
  rewrite !lookup_insert_ne by discriminate. reflexivity.
Qed.

Lemma filter_loop_pointwise (history acc : list (gmap string value)) :
  Forall has_text history →
  ∃ out, filter_loop history acc = Ok (acc ++ out)%list
         ∧ Forall2 (λ m m', filter_message m = Ok m') history out.
Proof.
  intros Hall. revert acc.
  induction Hall as [|message rest Hm _ IH]; intros acc; simpl.
  - exists []. rewrite app_nil_r. split; [reflexivity | constructor].
  - destruct (filter_message_ok message Hm) as (filtered & Hf & _).
    rewrite Hf. simpl.
    destruct (IH (acc ++ [filtered])%list) as (out & -> & Hout).
    exists (filtered :: out). rewrite <- app_assoc. split; [reflexivity |].
    constructor; assumption.
Qed.

Lemma filter_loop_after_removal (history out acc : list (gmap string value)) :
  Forall2 (λ m m', filter_message m = Ok m') history out →
  filter_loop (List.filter (λ m, negb (is_tool_message m)) history) acc
  = Ok (acc ++ List.filter (λ m, negb (is_tool_message m)) out)%list.
Proof.
  intros Hall. revert acc.
  induction Hall as [|m m' rest out Hm _ IH]; intros acc; simpl.
  - rewrite app_nil_r. reflexivity.
  - rewrite (filter_message_keeps_tool_status m m' Hm).
    destruct (is_tool_message m); simpl; [apply IH |].
    rewrite Hm. simpl. rewrite IH, <- app_assoc. reflexivity.
Qed.

End HandoffToolsFacts.


(** X2: filtering a second time changes nothing. *)
Theorem filter_remove_tools_idempotent (history : list (gmap string value)) :
  HandoffTools.filter_remove_tools (HandoffTools.filter_remove_tools history)
  = HandoffTools.filter_remove_tools history.
Proof.
  unfold HandoffTools.filter_remove_tools. rewrite !remove_loop_filter. simpl.
  induction history as [|m rest IH]; simpl; [reflexivity |].
  destruct (HandoffTools.is_tool_message m) eqn:Hm; simpl; [exact IH |].
  rewrite Hm. simpl. f_equal. exact IH.
Qed.

(** X3: on a history whose user messages carry text, the two filters can
    be applied in either order: removing the tool messages and then
    redacting gives the redacted history with its tool messages removed. *)
Theorem filters_commute (history : list (gmap string value)) :
  Forall HandoffFilters.has_text history →
  ∃ redacted,
    HandoffFilters.filter_sensitive_data history = Ok redacted
    ∧ HandoffFilters.filter_sensitive_data (HandoffTools.filter_remove_tools history)
      = Ok (HandoffTools.filter_remove_tools redacted).
Proof.
  intros Hall.
  destruct (filter_loop_pointwise history [] Hall) as (out & Hrun & Hout).
  exists out. split; [exact Hrun |].
  unfold HandoffFilters.filter_sensitive_data, HandoffTools.filter_remove_tools.
  rewrite !remove_loop_filter. simpl.
  exact (filter_loop_after_removal history out [] Hout).
Qed.

Lemma filters_commute_witness :
  Forall HandoffFilters.has_text demo_tool_history
  ∧ ∃ redacted,
      HandoffFilters.filter_sensitive_data demo_tool_history = Ok redacted
      ∧ HandoffFilters.filter_sensitive_data
          (HandoffTools.filter_remove_tools demo_tool_history)
        = Ok (HandoffTools.filter_remove_tools redacted).
Proof.
  assert (Forall HandoffFilters.has_text demo_tool_history) as Hall.
  { repeat constructor; intros Hu;
      first [eexists; reflexivity | vm_compute in Hu; discriminate]. }
  split; [exact Hall | exact (filters_commute demo_tool_history Hall)].
Defined.


(** ** Replacement and the sanitizer *)

Section ReplaceFacts.

Lemma replace_from_skip (old new : string) (k : nat) (s : string) :
  PyStr.replace_from old new k s = PyStr.replace_from old new 0 (PyStr.drop k s).
Proof.
  revert k. induction s as [|c s IH]; intros [|k]; try reflexivity.
  simpl PyStr.drop. rewrite <- IH. reflexivity.
Qed.

Lemma replace_from_cons (old new : string) (c : ascii) (s : string) :
  PyStr.replace_from old new 0 (String c s)
  = if PyStr.startswith (String c s) old
    then new ++ PyStr.replace_from old new (String.length old - 1) s
    else String c (PyStr.replace_from old new 0 s).
Proof. reflexivity. Qed.

Lemma startswith_cons (c d : ascii) (s p : string) :
  PyStr.startswith (String c s) (String d p) = Ascii.eqb d c && PyStr.startswith s p.
Proof. reflexivity. Qed.

Lemma contains_cons (p : string) (c : ascii) (s : string) :
  PyStr.contains p (String c s) = PyStr.startswith (String c s) p || PyStr.contains p s.
Proof. reflexivity. Qed.

Lemma contains_empty (p : string) : p ≠ "" → PyStr.contains p "" = false.
Proof. destruct p; [congruence | reflexivity]. Qed.

Lemma contains_drop (p : string) (k : nat) (s : string) :
  PyStr.contains p (PyStr.drop k s) = true → PyStr.contains p s = true.
Proof.
  revert k. induction s as [|c s IH]; intros [|k]; try (intros H; exact H).
  simpl PyStr.drop. intros H. rewrite contains_cons, (IH k H). apply orb_true_r.
Qed.

Lemma drop_length_le (k : nat) (s : string) :
  (String.length (PyStr.drop k s) ≤ String.length s)%nat.
Proof.
  revert k. induction s as [|c s IH]; intros [|k]; simpl; try lia.
  specialize (IH k). lia.
Qed.

Lemma in_chars_head (c : ascii) (p : string) : Re.in_chars (String c p) c = true.
Proof. simpl. rewrite Ascii.eqb_refl. reflexivity. Qed.

Section OneReplacement.
Variables (old new' : string) (n0 : ascii).
Let new := String n0 new'.

(** A prefix of the output that is free of the first character of the
    replacement is a prefix of the input. *)
Lemma startswith_replaced (p s : string) :
  Re.in_chars p n0 = false →
  PyStr.startswith (PyStr.replace_from old new 0 s) p = true →
  PyStr.startswith s p = true.
Proof.
  revert s. induction p as [|x p IH]; intros s Hfree; [destruct s; reflexivity |].
  simpl in Hfree. apply orb_false_elim in Hfree as [Hx Hp].
  destruct s as [|c s]; [intros H; exact H |].
  rewrite replace_from_cons.
  destruct (PyStr.startswith (String c s) old).
  - unfold new. rewrite app_cons, startswith_cons, Hx. discriminate.
  - rewrite !startswith_cons. intros H. apply andb_prop in H as [Hc Hs].
    rewrite Hc, (IH s Hp Hs). reflexivity.
Qed.

(** An occurrence cannot start inside the replacement text when its first
    character does not occur there. *)
Lemma contains_after_new (x : ascii) (p t r : string) :
  Re.in_chars t x = false →
  PyStr.contains (String x p) (t ++ r) = true →
  PyStr.contains (String x p) r = true.
Proof.
  induction t as [|c t IH]; intros Hfree H; [exact H |].
  simpl in Hfree. apply orb_false_elim in Hfree as [Hc Ht].
  rewrite app_cons, contains_cons, startswith_cons in H.
  rewrite Ascii.eqb_sym, Hc in H. simpl in H. exact (IH Ht H).
Qed.

(** Occurrences in the output of a text that shares no character with
    the replacement were in the input. *)
Lemma contains_replaced (x : ascii) (p : string) :
  Re.in_chars new x = false → Re.in_chars (String x p) n0 = false →
  ∀ (n : nat) (s : string), (String.length s ≤ n)%nat →
    PyStr.contains (String x p) (PyStr.replace_from old new 0 s) = true →
    PyStr.contains (String x p) s = true.
Proof.
  intros Hx Hn0. induction n as [|n IH]; intros s Hlen.
  - destruct s; [intros H; exact H | simpl in Hlen; lia].
  - destruct s as [|c s]; [intros H; exact H |].
    simpl in Hlen. rewrite replace_from_cons.
    destruct (PyStr.startswith (String c s) old) eqn:Hm.
    + intros H. apply (contains_after_new x p new _ Hx) in H.
      rewrite replace_from_skip in H. apply IH in H.
      * apply contains_drop in H. rewrite contains_cons, H. apply orb_true_r.
      * pose proof (drop_length_le (String.length old - 1) s). lia.
    + rewrite (contains_cons _ c (PyStr.replace_from old new 0 s)).
      intros H. apply orb_prop in H as [H|H].
      * rewrite startswith_cons in H. apply andb_prop in H as [Hc Hs].
        simpl in Hn0. apply orb_false_elim in Hn0 as [_ Hp].
        apply (startswith_replaced p s Hp) in Hs.
        rewrite contains_cons, startswith_cons, Hc, Hs. reflexivity.
      * rewrite contains_cons, (IH s ltac:(lia) H). apply orb_true_r.
Qed.

(** After the replacement the replaced text no longer occurs. *)
Lemma replaced_is_gone (x : ascii) (p : string) :
  old = String x p →
  Re.in_chars new x = false → Re.in_chars old n0 = false →
  ∀ (n : nat) (s : string), (String.length s ≤ n)%nat →
    PyStr.contains old (PyStr.replace_from old new 0 s) = false.
Proof.
  intros Hold Hx Hn0. induction n as [|n IH]; intros s Hlen.
  - destruct s; [rewrite Hold; reflexivity | simpl in Hlen; lia].
  - destruct s as [|c s]; [rewrite Hold; reflexivity |].
    simpl in Hlen. rewrite replace_from_cons.
    destruct (PyStr.startswith (String c s) old) eqn:Hm.
    + destruct (PyStr.contains old (new ++ _)) eqn:H; [| reflexivity].
      rewrite Hold in H at 1. apply (contains_after_new x p new _ Hx) in H.
      rewrite <- Hold, replace_from_skip, IH in H; [discriminate |].
      pose proof (drop_length_le (String.length old - 1) s). lia.
    + rewrite contains_cons, (IH s ltac:(lia)), orb_false_r.
      destruct (PyStr.startswith (String c (PyStr.replace_from old new 0 s)) old)
        eqn:H; [| reflexivity].
      rewrite Hold in H at 2. rewrite startswith_cons in H.
      apply andb_prop in H as [Hc Hs].
      rewrite Hold in Hn0. simpl in Hn0. apply orb_false_elim in Hn0 as [_ Hp].
      apply (startswith_replaced p s Hp) in Hs.
      rewrite Hold, startswith_cons, Hc, Hs in Hm. discriminate.
Qed.

End OneReplacement.

(** An input without the text is returned as it is. *)
Lemma replace_absent (s old new : string) :
  old ≠ "" → PyStr.contains old s = false → PyStr.replace s old new = s.
Proof.
  intros Hold. unfold PyStr.replace. destruct old as [|x p]; [congruence |].
  clear Hold. induction s as [|c s IH]; [reflexivity |].
  rewrite contains_cons. intros H. apply orb_false_elim in H as [Hm Hs].
  rewrite replace_from_cons. rewrite Hm, (IH Hs). reflexivity.
Qed.

End ReplaceFacts.

Section SanitizerFacts.
Import Security.

Lemma shares_no_char_head (x : ascii) (p new : string) :
  shares_no_char (String x p) new = true → Re.in_chars new x = false.
Proof.
  unfold shares_no_char. simpl. intros H. apply andb_prop in H as [H _].
  apply negb_true_iff in H. exact H.
Qed.

Lemma shares_no_char_absent (p new : string) (c : ascii) :
  shares_no_char p new = true → Re.in_chars new c = true → Re.in_chars p c = false.
Proof.
  unfold shares_no_char. intros Hp Hc. induction p as [|x p IH]; [reflexivity |].
  simpl in Hp. apply andb_prop in Hp as [Hx Hp]. simpl. rewrite (IH Hp), orb_false_r.
  destruct (Ascii.eqb_spec x c) as [->|]; [| reflexivity].
  rewrite Hc in Hx. discriminate.
Qed.

(** One replacement by the marker removes its pattern and brings back
    none that was absent. *)
Lemma redacted_is_gone (old s : string) :
  old ≠ "" → shares_no_char old "[REDACTED]" = true →
  PyStr.contains old (PyStr.replace s old "[REDACTED]") = false.
Proof.
  intros Hne Hshare. destruct old as [|x p]; [congruence |]. unfold PyStr.replace.
  apply (replaced_is_gone (String x p) "REDACTED]" "[" x p eq_refl
           (shares_no_char_head x p _ Hshare)
           (shares_no_char_absent _ _ "[" Hshare eq_refl) (String.length s)).
  lia.
Qed.

Lemma redaction_keeps_absent (q old s : string) :
  q ≠ "" → shares_no_char q "[REDACTED]" = true → old ≠ "" →
  PyStr.contains q s = false →
  PyStr.contains q (PyStr.replace s old "[REDACTED]") = false.
Proof.
  intros Hq Hshare Hold Hs. destruct q as [|x p]; [congruence |].
  destruct old as [|y old]; [congruence |]. unfold PyStr.replace.
  destruct (PyStr.contains (String x p) (PyStr.replace_from _ _ 0 s)) eqn:H;
    [| reflexivity].
  apply (contains_replaced (String y old) "REDACTED]" "[" x p
           (shares_no_char_head x p _ Hshare)
           (shares_no_char_absent _ _ "[" Hshare eq_refl) (String.length s) s)
    in H; [congruence | lia].
Qed.

Lemma redactions_keep_absent (q : string) (patterns : list string) (s : string) :
  q ≠ "" → shares_no_char q "[REDACTED]" = true →
  Forall (λ p, p ≠ "") patterns →
  PyStr.contains q s = false →
  PyStr.contains q
    (fold_left (λ sanitized pattern, PyStr.replace sanitized pattern "[REDACTED]")
       patterns s) = false.
Proof.
  intros Hq Hshare Hall. revert s.
  induction Hall as [|p patterns Hp _ IH]; intros s Hs; simpl; [exact Hs |].
  apply IH. apply redaction_keeps_absent; assumption.
Qed.

End SanitizerFacts.

(** X5: when no redact pattern is empty or shares a character with the
    marker "[REDACTED]", the sanitized output contains none of the
    patterns, whatever the output was. *)
Theorem sanitize_output_removes_patterns (self : Security.SecureAgentWrapper)
    (output : string) :
  Forall (λ p, p ≠ "" ∧ shares_no_char p "[REDACTED]" = true)
    (Security.get (Security.redact_patterns (Security.policies self)) []) →
  ∀ pattern,
    pattern ∈ Security.get (Security.redact_patterns (Security.policies self)) [] →
    PyStr.contains pattern (Security.sanitize_output self output) = false.
Proof.
  unfold Security.sanitize_output.
  generalize (Security.get (Security.redact_patterns (Security.policies self)) []).
  intros patterns Hall. revert output.
  induction Hall as [|p patterns [Hp Hshare] Hrest IH]; intros output pattern Hin;
    [inversion Hin |].
  simpl. apply elem_of_cons in Hin as [->|Hin]; [| exact (IH _ _ Hin)].
  apply redactions_keep_absent; try assumption.
  - eapply Forall_impl; [exact Hrest |]. simpl. tauto.
  - apply redacted_is_gone; assumption.
Qed.

Lemma sanitize_output_removes_patterns_witness :
  Forall (λ p, p ≠ "" ∧ shares_no_char p "[REDACTED]" = true)
    (Security.get (Security.redact_patterns (Security.policies demo_wrapper)) [])
  ∧ PyStr.contains "secret"
      (Security.sanitize_output demo_wrapper "the secret of admin@company.com") = false.
Proof.
  assert (Forall (λ p, p ≠ "" ∧ shares_no_char p "[REDACTED]" = true)
            (Security.get (Security.redact_patterns (Security.policies demo_wrapper)) []))
    as Hall by (repeat constructor; discriminate).
  split; [exact Hall |].
  apply (sanitize_output_removes_patterns demo_wrapper _ Hall).
  simpl. apply elem_of_cons. right. constructor.
Defined.

(** X6: an output in which no redact pattern occurs is returned unchanged
    (the patterns being non-empty). *)
Theorem sanitize_output_unchanged (self : Security.SecureAgentWrapper)
    (output : string) :
  Forall (λ p, p ≠ "" ∧ PyStr.contains p output = false)
    (Security.get (Security.redact_patterns (Security.policies self)) []) →
  Security.sanitize_output self output = output.
Proof.
  unfold Security.sanitize_output.
  generalize (Security.get (Security.redact_patterns (Security.policies self)) []).
  intros patterns Hall.
  induction Hall as [|p patterns [Hp Habsent] _ IH]; simpl; [reflexivity |].
  rewrite (replace_absent output p _ Hp Habsent). exact IH.
Qed.

Lemma sanitize_output_unchanged_witness :
  Forall (λ p, p ≠ "" ∧ PyStr.contains p "Our office opens at nine." = false)
    (Security.get (Security.redact_patterns (Security.policies demo_wrapper)) [])
  ∧ Security.sanitize_output demo_wrapper "Our office opens at nine."
    = "Our office opens at nine.".
Proof.
  assert (Forall (λ p, p ≠ "" ∧ PyStr.contains p "Our office opens at nine." = false)
            (Security.get (Security.redact_patterns (Security.policies demo_wrapper)) []))
    as Hall by (repeat constructor; discriminate).
  split; [exact Hall | exact (sanitize_output_unchanged demo_wrapper _ Hall)].
Defined.

(** X7: every call of [secure_execute] that returns has appended exactly
    one entry to the audit log, and the entry's [success] is the
    [success] of the returned dictionary; a call that ends in an
    exception (one that is no [Exception], raised by the runner) leaves
    the log as it was. *)
Theorem secure_execute_audit_entry
    (entry_head : string → string → gmap string value → gmap string value)
    (self : Security.SecureAgentWrapper) (user_input : string)
    (metadata : option (gmap string value)) (st : Security.St) :
  let r := Security.secure_execute entry_head self user_input metadata st in
  match fst r with
  | Ok d =>
      ∃ entry (success : bool),
        Security.audit_log (snd r) = (Security.audit_log st ++ [entry])%list
        ∧ d !! "success" = Some (VBool success)
        ∧ entry !! "success" = Some (VBool success)
  | Raise e =>
      is_Exception e = false
      ∧ Security.audit_log (snd r) = Security.audit_log st
  end.
Proof.
  intros r. subst r. unfold Security.secure_execute.
  destruct (Security.validate_input self user_input) as [[|] validation_message]; simpl.
  - unfold try_except, mbind, M_bind, Security.run, Runner_run. simpl.
    destruct (script (Security.world st) (length (calls (Security.world st)))
                (Security.agent self) user_input) as [final_output|e]; simpl.
    + eexists _, true. split; [reflexivity |]. split; [reflexivity |].
      rewrite lookup_insert_eq, lookup_insert_eq. reflexivity.
    + destruct (is_Exception e) eqn:He; simpl.
      * eexists _, false. split; [reflexivity |]. split; [reflexivity |].
        rewrite lookup_insert_eq, lookup_insert_eq. reflexivity.
      * split; [exact He | reflexivity].
  - eexists _, false. split; [reflexivity |]. split; [reflexivity |].
    rewrite lookup_insert_eq, lookup_insert_eq. reflexivity.
Qed.

(** ** The audit report *)

Section AuditFacts.
Import AuditReport.

Lemma count_successful_bounds (audit_log : list (gmap string value)) :
  Forall (λ log, is_Some (log !! "success")) audit_log →
  ∃ n, count_successful audit_log = Ok n ∧ 0 ≤ n ≤ Z.of_nat (length audit_log).
Proof.
  induction 1 as [|log rest [v Hv] _ (n & Hn & Hbound)]; simpl.
  - exists 0. split; [reflexivity | lia].
  - unfold getitem. rewrite Hv. simpl. rewrite Hn. simpl.
    destruct (truthy v); eexists; (split; [reflexivity | lia]).
Qed.

Lemma user_set_bounds (audit_log : list (gmap string value)) :
  Forall (λ log, ∃ user_id k, log !! "user_id" = Some user_id ∧ hashable user_id = Ok k)
    audit_log →
  ∃ users, user_set audit_log = Ok users ∧ (size users ≤ length audit_log)%nat.
Proof.
  induction 1 as [|log rest (user_id & k & Hu & Hk) _ (users & Hus & Hbound)]; simpl.
  - exists ∅. split; [reflexivity |]. rewrite size_empty. lia.
  - unfold getitem. rewrite Hu. simpl. rewrite Hk. simpl. rewrite Hus. simpl.
    eexists. split; [reflexivity |].
    rewrite size_union_alt, size_singleton.
    assert (users ∖ {[k]} ⊆ users) as Hsub by apply subseteq_difference_l, reflexivity.
    apply subseteq_size in Hsub. lia.
Qed.

Lemma count_successful_raises (audit_log : list (gmap string value)) (e : exn) :
  count_successful audit_log = Raise e → exn_cls e = KeyError.
Proof.
  induction audit_log as [|log rest IH]; simpl; [discriminate |].
  unfold getitem. destruct (log !! "success"); simpl; [| intros [= <-]; reflexivity].
  destruct (count_successful rest); simpl; [discriminate |].
  intros [= <-]. apply IH. reflexivity.
Qed.

Lemma user_set_raises (audit_log : list (gmap string value)) (e : exn) :
  user_set audit_log = Raise e → exn_cls e = KeyError ∨ exn_cls e = TypeError.
Proof.
  induction audit_log as [|log rest IH]; simpl; [discriminate |].
  unfold getitem. destruct (log !! "user_id") as [v|]; simpl;
    [| intros [= <-]; left; reflexivity].
  destruct v; simpl; try (intros [= <-]; right; reflexivity);
    (destruct (user_set rest); simpl; [discriminate |];
     intros [= <-]; apply IH; reflexivity).
Qed.

End AuditFacts.

(** X8: on an audit log whose entries carry [success], a hashable
    [user_id] and [timestamp], [get_audit_report] returns a report in
    which the total is the number of entries, the successful ones are
    between 0 and the total, the failure rate is between 0 and 100, and
    there are at most as many unique users as entries. *)
Theorem get_audit_report_bounds (audit_log : list (gmap string value)) :
  Forall AuditReport.readable audit_log →
  ∃ rep,
    AuditReport.get_audit_report audit_log = Ok rep
    ∧ AuditReport.total_interactions rep = Z.of_nat (length audit_log)
    ∧ 0 ≤ AuditReport.successful_interactions rep ≤ AuditReport.total_interactions rep
    ∧ (0 <= AuditReport.failure_rate rep)%Q
    ∧ (AuditReport.failure_rate rep <= 100)%Q
    ∧ 0 ≤ AuditReport.unique_users rep ≤ AuditReport.total_interactions rep.
Proof.
  intros Hall.
  destruct (count_successful_bounds audit_log) as (n & Hn & Hbound).
  { eapply Forall_impl; [exact Hall |]. intros log (H & _ & _). exact H. }
  destruct (user_set_bounds audit_log) as (users & Hus & Hsize).
  { eapply Forall_impl; [exact Hall |]. intros log (_ & H & _). exact H. }
  unfold AuditReport.get_audit_report. rewrite Hn. simpl.
  assert (∃ start, match audit_log with
                   | [] => Ok VNone
                   | first :: _ => getitem first "timestamp"
                   end = Ok start) as [start Hstart].
  { destruct Hall as [|log rest (_ & _ & [t Ht]) _]; [eexists; reflexivity |].
    unfold getitem. rewrite Ht. eexists; reflexivity. }
  assert (∃ finish, match last audit_log with
                    | None => Ok VNone
                    | Some final => getitem final "timestamp"
                    end = Ok finish) as [finish Hfinish].
  { destruct (last audit_log) as [final|] eqn:Hlast; [| eexists; reflexivity].
    apply last_Some_elem_of in Hlast.
    rewrite Forall_forall in Hall. destruct (Hall final Hlast) as (_ & _ & [t Ht]).
    unfold getitem. rewrite Ht. eexists; reflexivity. }
  destruct (Z.ltb_spec 0 (Z.of_nat (length audit_log))) as [Hpos|Hzero].
  - unfold DataTools.true_div.
    destruct (Z.eqb_spec (Z.of_nat (length audit_log)) 0) as [Heq|_]; [lia |].
    simpl. rewrite Hus. simpl. rewrite Hstart. simpl. rewrite Hfinish. simpl.
    eexists. split; [reflexivity |]. simpl.
    split; [reflexivity |]. split; [exact Hbound |].
    assert (0 <= (Z.of_nat (length audit_log) - n) # 1
            <= Z.of_nat (length audit_log) # 1)%Q as [Hlo Hhi]
      by (unfold Qle; simpl; lia).
    assert (0 < Z.of_nat (length audit_log) # 1)%Q as Hden
      by (unfold Qlt; simpl; lia).
    split; [| split; [| lia]].
    + apply Qmult_le_0_compat; [| discriminate].
      apply Qle_shift_div_l; [exact Hden |]. rewrite Qmult_0_l. exact Hlo.
    + apply (Qle_trans _ (1 * 100)); [| unfold Qle; simpl; lia].
      apply Qmult_le_compat_r; [| discriminate].
      apply Qle_shift_div_r; [exact Hden |]. rewrite Qmult_1_l. exact Hhi.
  - simpl. rewrite Hus. simpl. rewrite Hstart. simpl. rewrite Hfinish. simpl.
    eexists. split; [reflexivity |]. simpl.
    split; [reflexivity |]. split; [exact Hbound |].
    split; [discriminate |]. split; [discriminate | lia].
Qed.

Lemma get_audit_report_bounds_witness :
  Forall AuditReport.readable demo_audit_log
  ∧ ∃ rep,
      AuditReport.get_audit_report demo_audit_log = Ok rep
      ∧ AuditReport.total_interactions rep = Z.of_nat (length demo_audit_log)
      ∧ 0 ≤ AuditReport.successful_interactions rep ≤ AuditReport.total_interactions rep
      ∧ (0 <= AuditReport.failure_rate rep)%Q
      ∧ (AuditReport.failure_rate rep <= 100)%Q
      ∧ 0 ≤ AuditReport.unique_users rep ≤ AuditReport.total_interactions rep.
Proof.
  assert (Forall AuditReport.readable demo_audit_log) as Hall.
  { repeat constructor; try (eexists; reflexivity).
    all: eexists _, _; split; reflexivity. }
  split; [exact Hall | exact (get_audit_report_bounds demo_audit_log Hall)].
Defined.

(** X9: [get_audit_report] never divides by zero: the empty log gives
    the report of zeros without dates, and on any log the only errors
    are a missing key and an unhashable user id. *)
Theorem get_audit_report_errors (audit_log : list (gmap string value)) :
  AuditReport.get_audit_report []
    = Ok (AuditReport.mkReport 0 0 0 0 VNone VNone)
  ∧ ∀ e, AuditReport.get_audit_report audit_log = Raise e →
         exn_cls e = KeyError ∨ exn_cls e = TypeError.
Proof.
  split; [reflexivity |]. intros e. unfold AuditReport.get_audit_report.
  destruct (AuditReport.count_successful audit_log) as [n|e1] eqn:Hn; simpl;
    [| intros [= <-]; left; exact (count_successful_raises _ _ Hn)].
  assert (∃ q, (if 0 <? Z.of_nat (length audit_log)
                then q ← DataTools.true_div (Z.of_nat (length audit_log) - n)
                                           (Z.of_nat (length audit_log));
                     mret (q * 100)%Q
                else mret 0%Q) = Ok q) as [q ->].
  { destruct (Z.ltb_spec 0 (Z.of_nat (length audit_log))) as [Hpos|_];
      [| eexists; reflexivity].
    unfold DataTools.true_div.
    destruct (Z.eqb_spec (Z.of_nat (length audit_log)) 0); [lia |].
    eexists; reflexivity. }
  simpl.
  destruct (AuditReport.user_set audit_log) as [users|e2] eqn:Hus; simpl;
    [| intros [= <-]; exact (user_set_raises _ _ Hus)].
  assert (∀ log r, getitem log "timestamp" = Raise r → exn_cls r = KeyError) as Hget.
  { intros log r. unfold getitem. destruct (log !! "timestamp"); [discriminate |].
    intros [= <-]. reflexivity. }
  destruct audit_log as [|first rest].
  - discriminate.
  - destruct (getitem first "timestamp") eqn:Hfirst; simpl;
      [| intros [= <-]; left; exact (Hget _ _ Hfirst)].
    destruct (last (first :: rest)) as [final|]; simpl; [| discriminate].
    destruct (getitem final "timestamp") eqn:Hfinal; simpl; [discriminate |].
    intros [= <-]. left. exact (Hget _ _ Hfinal).
Qed.

(** ** The routing history *)

Section RoutingHistoryFacts.
Import ConditionalRouting.

Lemma route_history (outcome input_data : string) (s : St) :
  In outcome labels →
  let s' := snd (route outcome input_data s) in
  ∃ es, routing_history (ctx s') = (routing_history (ctx s) ++ es)%list
        ∧ es ≠ []
        ∧ es `prefix_of` history_entries outcome
        ∧ (is_ok (fst (route outcome input_data s)) = true → es = history_entries outcome)
        ∧ request_id (ctx s') = request_id (ctx s)
        ∧ user_type (ctx s') = user_type (ctx s)
        ∧ priority (ctx s') = priority (ctx s)
        ∧ created_at (ctx s') = created_at (ctx s).
Proof.
  intros Hin. destruct s as [c w]. simpl in Hin.
  destruct Hin as [<-|[<-|[<-|[<-|[<-|[]]]]]];
    unfold route, history_entries; simpl;
    unfold mbind, M_bind, history_append, run, Runner_run; simpl.
  2: {
    destruct (script w (length (calls w)) reviewer_agent _) as [review|e]; simpl.
    - match goal with
      | |- context [script w ?k finalizer_agent ?p] =>
          destruct (script w k finalizer_agent p)
      end; simpl; eexists [_; _]; rewrite <- app_assoc; simpl;
        (split; [reflexivity |]; split; [discriminate |];
         split; [reflexivity |]; split; [intros _; reflexivity |];
         repeat split; reflexivity).
    - eexists [_]; simpl.
      split; [reflexivity |]; split; [discriminate |].
      split; [exists ["Reviewed, now finalizing"]; reflexivity |].
      split; [discriminate | repeat split; reflexivity].
  }
  all: match goal with
       | |- context [script ?w ?k ?a ?p] => destruct (script w k a p)
       end; simpl; eexists [_];
       (split; [reflexivity |]; split; [discriminate |];
        split; [reflexivity |]; split; [intros _; reflexivity |];
        repeat split; reflexivity).
Qed.

End RoutingHistoryFacts.

(** X10: [conditional_workflow] only appends to the routing history of
    the context it is given.  Once the processor has answered, the history
    is the old one, then "Started with Processor Agent", then the entries
    of the route taken (the second entry of the reviewer route is written
    when the reviewer has returned); the other fields of the context are
    not changed. *)
Theorem conditional_workflow_history
    (input_data response : string) (c : ConditionalRouting.ProcessingContext)
    (w : World string) :
  let run := ConditionalRouting.conditional_workflow input_data
               (ConditionalRouting.mkSt c w) in
  let c' := ConditionalRouting.ctx (snd run) in
  script w (length (calls w)) ConditionalRouting.processor_agent
    ("Process this request: " ++ input_data) = Ok response →
  (∃ es,
     ConditionalRouting.routing_history c'
     = (ConditionalRouting.routing_history c
        ++ "Started with Processor Agent" :: es)%list
     ∧ es ≠ []
     ∧ es `prefix_of` history_entries (ConditionalRouting.first_matching_label response)
     ∧ (is_ok (fst run) = true →
        es = history_entries (ConditionalRouting.first_matching_label response)))
  ∧ ConditionalRouting.request_id c' = ConditionalRouting.request_id c
  ∧ ConditionalRouting.user_type c' = ConditionalRouting.user_type c
  ∧ ConditionalRouting.priority c' = ConditionalRouting.priority c
  ∧ ConditionalRouting.created_at c' = ConditionalRouting.created_at c.
Proof.
  intros run c' Hresp. subst c' run.
  rewrite (workflow_first_step _ _ _ _ Hresp), extract_outcome_first_match.
  match goal with
  | |- context [ConditionalRouting.route ?o ?i ?s] =>
      destruct (route_history o i s (first_matching_label_in response))
        as (es & Hhist & Hne & Hpre & Hok & H1 & H2 & H3 & H4)
  end.
  split; [| repeat split; assumption].
  exists es. simpl in Hhist. rewrite Hhist, <- app_assoc. simpl.
  split; [reflexivity |]. split; [exact Hne |]. split; [exact Hpre | exact Hok].
Qed.

Lemma conditional_workflow_history_witness :
  let w := mkWorld (λ k _ _, match k with
                             | O => Ok "NEEDS_REVIEW: the request is ambiguous"
                             | _ => Ok "done"
                             end) [] in
  let c := ConditionalRouting.mkContext "REQ-002" "enterprise" "high" ["queued"] 0 in
  let run := ConditionalRouting.conditional_workflow "integration issue"
               (ConditionalRouting.mkSt c w) in
  script w (length (calls w)) ConditionalRouting.processor_agent
    ("Process this request: " ++ "integration issue")
  = Ok "NEEDS_REVIEW: the request is ambiguous"
  ∧ ConditionalRouting.routing_history (ConditionalRouting.ctx (snd run))
    = ["queued"; "Started with Processor Agent"; "Routed to Human Review Agent"].
Proof.
  intros w c run. split; [reflexivity |].
  destruct (conditional_workflow_history "integration issue"
              "NEEDS_REVIEW: the request is ambiguous" c w eq_refl)
    as [(es & Hhist & _ & _ & Hok) _].
  fold run in Hhist, Hok. rewrite Hhist, (Hok eq_refl). reflexivity.
Defined.

(** X11: when the run of the processor raises, the workflow raises the
    same exception without calling any other agent, and the routing
    history has gained its first entry only. *)
Theorem conditional_workflow_processor_failure
    (input_data : string) (e : exn) (c : ConditionalRouting.ProcessingContext)
    (w : World string) :
  let prompt := "Process this request: " ++ input_data in
  let run := ConditionalRouting.conditional_workflow input_data
               (ConditionalRouting.mkSt c w) in
  script w (length (calls w)) ConditionalRouting.processor_agent prompt = Raise e →
  fst run = Raise e
  ∧ calls (ConditionalRouting.world (snd run))
    = (calls w ++ [(ConditionalRouting.processor_agent, prompt)])%list
  ∧ ConditionalRouting.routing_history (ConditionalRouting.ctx (snd run))
    = (ConditionalRouting.routing_history c ++ ["Started with Processor Agent"])%list.
Proof.
  intros prompt run Hraise. subst run.
  unfold ConditionalRouting.conditional_workflow, mbind, M_bind,
    ConditionalRouting.history_append, ConditionalRouting.run, Runner_run at 1.
  simpl. fold prompt. rewrite Hraise. repeat split; reflexivity.
Qed.

Lemma conditional_workflow_processor_failure_witness :
  let w := mkWorld (λ _ _ _, Raise (Exn OtherException "connection reset")) [] in
  let c := ConditionalRouting.mkContext "REQ-003" "premium" "critical" [] 0 in
  let run := ConditionalRouting.conditional_workflow "the system crashed"
               (ConditionalRouting.mkSt c w) in
  script w (length (calls w)) ConditionalRouting.processor_agent
    ("Process this request: " ++ "the system crashed")
  = Raise (Exn OtherException "connection reset")
  ∧ fst run = Raise (Exn OtherException "connection reset")
  ∧ calls (ConditionalRouting.world (snd run))
    = [(ConditionalRouting.processor_agent,
        "Process this request: " ++ "the system crashed")]
  ∧ ConditionalRouting.routing_history (ConditionalRouting.ctx (snd run))
    = ["Started with Processor Agent"].
Proof.
  intros w c run. split; [reflexivity |].
  exact (conditional_workflow_processor_failure "the system crashed"
           (Exn OtherException "connection reset") c w eq_refl).
Defined.

(** ** The comprehensive guardrail and the model *)

Section ComprehensiveFacts.
Import AdvancedGuardrails.

Lemma model_is_consulted_not_critical (level : string) :
  model_is_consulted level = true → String.eqb level "critical" = false.
Proof.
  unfold model_is_consulted. intros H. apply orb_prop in H as [H|H];
    apply String.eqb_eq in H as ->; reflexivity.
Qed.

End ComprehensiveFacts.






(** ** Retries that succeed *)

Section RetrySuccessFacts.
Import Retry.
Context {RunResult : Type}.

Lemma execute_loop_first_success (self : RobustAgent) (user_input : string)
    (r : RunResult) (k : nat) :
  ∀ (a n : nat) (w : World RunResult),
    (k < n)%nat → Z.of_nat (a + k) < max_retries self →
    (∀ j, (j < k)%nat →
          ∃ e, script w (length (calls w) + j) (agent self) user_input = Raise e
               ∧ is_Exception e = true) →
    script w (length (calls w) + k) (agent self) user_input = Ok r →
    fst (execute_loop self user_input (List.map Z.of_nat (seq a n)) w) = Ok (Result r)
    ∧ length (calls (snd (execute_loop self user_input (List.map Z.of_nat (seq a n)) w)))
      = (length (calls w) + k + 1)%nat.
Proof.
  induction k as [|k IH]; intros a n w Hn Hmax Hfail Hok;
    (destruct n as [|n]; [lia |]); simpl.
  - rewrite Nat.add_0_r in Hok. rewrite Hok. simpl.
    rewrite length_app. simpl. split; [reflexivity | lia].
  - destruct (Hfail O ltac:(lia)) as (e & He & Hexc).
    rewrite Nat.add_0_r in He. rewrite He, Hexc.
    destruct (Z.eqb_spec (Z.of_nat a) (max_retries self - 1)) as [Heq|_]; [lia |].
    match goal with
    | |- context [execute_loop self user_input _ ?w'] =>
        destruct (IH (S a) n w') as [Hres Hlen]
    end.
    + lia.
    + lia.
    + intros j Hj. simpl. rewrite length_app. simpl.
      destruct (Hfail (S j) ltac:(lia)) as (e' & He' & Hexc').
      exists e'. split; [| exact Hexc'].
      rewrite <- He'. f_equal. lia.
    + simpl. rewrite length_app. simpl. rewrite <- Hok. f_equal. lia.
    + split; [exact Hres |]. rewrite Hlen. simpl. rewrite length_app. simpl. lia.
Qed.

Lemma execute_loop_returns_result (self : RobustAgent) (user_input : string)
    (attempts : list Z) (w : World RunResult) (o : outcome RunResult) :
  fst (execute_loop self user_input attempts w) = Ok o → ∃ r, o = Result r.
Proof.
  revert w. induction attempts as [|attempt rest IH]; intros w; simpl; [discriminate |].
  destruct (script w (length (calls w)) (agent self) user_input) as [r|e]; simpl.
  - intros [= <-]. exists r. reflexivity.
  - destruct (is_Exception e); [| discriminate].
    destruct (attempt =? max_retries self - 1); [discriminate | apply IH].
Qed.

(** The first attempt of [safe_agent_execution] that does not end in a
    retryable error decides the outcome. *)
Lemma safe_loop_first_decisive (a0 : Agent) (prompt : string) (limit : Z) (k : nat) :
  ∀ (a n : nat) (w : World RunResult),
    (k < n)%nat → Z.of_nat (a + k) < limit →
    (∀ j, (j < k)%nat →
          ∃ e, script w (length (calls w) + j) a0 prompt = Raise e
               ∧ retryable e = true) →
    (∀ e, script w (length (calls w) + k) a0 prompt = Raise e → retryable e = false) →
    fst (safe_loop a0 prompt limit (List.map Z.of_nat (seq a n)) w)
    = match script w (length (calls w) + k) a0 prompt with
      | Ok r => Ok (Some r)
      | Raise e => match exn_cls e with BaseOnly => Raise e | _ => Ok None end
      end
    ∧ length (calls (snd (safe_loop a0 prompt limit (List.map Z.of_nat (seq a n)) w)))
      = (length (calls w) + k + 1)%nat.
Proof.
  induction k as [|k IH]; intros a n w Hn Hmax Hfail Hdec;
    (destruct n as [|n]; [lia |]); simpl.
  - rewrite Nat.add_0_r in Hdec. rewrite !Nat.add_0_r.
    destruct (script w (length (calls w)) a0 prompt) as [r|e]; simpl.
    + rewrite length_app. simpl. split; [reflexivity | lia].
    + specialize (Hdec e eq_refl). unfold retryable in Hdec.
      destruct (exn_cls e); try discriminate; simpl;
        rewrite length_app; simpl; (split; [reflexivity | lia]).
  - destruct (Hfail O ltac:(lia)) as (e & He & Hretry).
    rewrite Nat.add_0_r in He. rewrite He.
    assert (match exn_cls e with
            | BaseOnly => (Raise e, mkWorld (script w) (calls w ++ [(a0, prompt)]))
            | AgentsException => (Ok None, mkWorld (script w) (calls w ++ [(a0, prompt)]))
            | _ =>
                if Z.of_nat a =? limit - 1
                then (Ok None, mkWorld (script w) (calls w ++ [(a0, prompt)]))
                else safe_loop a0 prompt limit (List.map Z.of_nat (seq (S a) n))
                       (mkWorld (script w) (calls w ++ [(a0, prompt)]))
            end
            = safe_loop a0 prompt limit (List.map Z.of_nat (seq (S a) n))
                (mkWorld (script w) (calls w ++ [(a0, prompt)]))) as ->.
    { destruct (Z.eqb_spec (Z.of_nat a) (limit - 1)) as [Heq|_]; [lia |].
      unfold retryable in Hretry. destruct (exn_cls e); try discriminate; reflexivity. }
    destruct (IH (S a) n (mkWorld (script w) (calls w ++ [(a0, prompt)])))
      as [Hres Hlen].
    + lia.
    + lia.
    + intros j Hj. simpl. rewrite length_app. simpl.
      destruct (Hfail (S j) ltac:(lia)) as (e' & He' & Hr').
      exists e'. split; [| exact Hr']. rewrite <- He'. f_equal. lia.
    + intros e'. simpl. rewrite length_app. simpl.
      replace (length (calls w) + 1 + k)%nat with (length (calls w) + S k)%nat by lia.
      apply Hdec.
    + simpl in Hres, Hlen. rewrite length_app in Hres, Hlen. simpl in Hres, Hlen.
      replace (length (calls w) + 1 + k)%nat with (length (calls w) + S k)%nat
        in Hres, Hlen by lia.
      split; [exact Hres | lia].
Qed.

End RetrySuccessFacts.

(** X15: [execute_with_retry] returns the runner's result of the first
    attempt that succeeds: when the first [k] attempts raise an
    [Exception] and attempt [k + 1] is within [max_retries] and returns,
    that result is returned after exactly [k + 1] runs. *)
Theorem execute_with_retry_first_success {RunResult : Type}
    (self : Retry.RobustAgent) (user_input : string) (w : World RunResult)
    (k : nat) (r : RunResult) :
  Z.of_nat k < Retry.max_retries self →
  (∀ j, (j < k)%nat →
        ∃ e, script w (length (calls w) + j) (Retry.agent self) user_input = Raise e
             ∧ is_Exception e = true) →
  script w (length (calls w) + k) (Retry.agent self) user_input = Ok r →
  fst (Retry.execute_with_retry self user_input w) = Ok (Retry.Result r)
  ∧ Retry.attempts_made (Retry.execute_with_retry self user_input) w = (k + 1)%nat.
Proof.
  intros Hk Hfail Hok. unfold Retry.execute_with_retry, Retry.attempts_made, Retry.range.
  destruct (execute_loop_first_success self user_input r k 0
              (Z.to_nat (Retry.max_retries self)) w) as [Hres Hlen];
    try assumption; try lia.
  split; [exact Hres | rewrite Hlen; lia].
Qed.

Lemma execute_with_retry_first_success_witness :
  let self := Retry.RobustAgent_default (mkAgent "CustomerService" "") in
  Z.of_nat 2 < Retry.max_retries self
  ∧ fst (Retry.execute_with_retry self "capital of France?" third_time_lucky)
    = Ok (Retry.Result "Paris")
  ∧ Retry.attempts_made (Retry.execute_with_retry self "capital of France?")
      third_time_lucky = 3%nat.
Proof.
  intros self. split; [reflexivity |].
  apply (execute_with_retry_first_success self "capital of France?"
           third_time_lucky 2 "Paris"); [reflexivity | | reflexivity].
  intros j Hj. eexists. destruct j as [|[|j]]; [| | lia]; split; reflexivity.
Defined.

(** X16: whatever the runner does, [execute_with_retry] runs the agent at
    most [max_retries] times, and what it returns is always a result of
    the runner, never a fallback object. *)
Theorem execute_with_retry_returns_only_results {RunResult : Type}
    (self : Retry.RobustAgent) (user_input : string) (w : World RunResult) :
  (Retry.attempts_made (Retry.execute_with_retry self user_input) w
   ≤ Z.to_nat (Retry.max_retries self))%nat
  ∧ ∀ o, fst (Retry.execute_with_retry self user_input w) = Ok o →
         ∃ r, o = Retry.Result r.
Proof.
  split.
  - unfold Retry.attempts_made, Retry.execute_with_retry.
    pose proof (execute_loop_bound self user_input
                  (Retry.range (Retry.max_retries self)) w) as H.
    rewrite range_length in H. lia.
  - intros o. apply execute_loop_returns_result.
Qed.

(** X17: in [safe_agent_execution] the first attempt that does not end in
    a retryable error decides: a result is returned, an [AgentsException]
    other than the two named ones gives [None] without further attempts,
    and an exception that is no [Exception] is passed on; [k] retryable
    failures before it cost [k] more runs. *)
Theorem safe_agent_execution_first_decisive {RunResult : Type}
    (a : Agent) (prompt : string) (max_retries : Z) (w : World RunResult) (k : nat) :
  Z.of_nat k < max_retries →
  (∀ j, (j < k)%nat →
        ∃ e, script w (length (calls w) + j) a prompt = Raise e ∧ retryable e = true) →
  (∀ e, script w (length (calls w) + k) a prompt = Raise e → retryable e = false) →
  fst (Retry.safe_agent_execution a prompt max_retries w)
  = match script w (length (calls w) + k) a prompt with
    | Ok r => Ok (Some r)
    | Raise e => match exn_cls e with BaseOnly => Raise e | _ => Ok None end
    end
  ∧ Retry.attempts_made (Retry.safe_agent_execution a prompt max_retries) w
    = (k + 1)%nat.
Proof.
  intros Hk Hfail Hdec. unfold Retry.safe_agent_execution, Retry.attempts_made, Retry.range.
  destruct (safe_loop_first_decisive a prompt max_retries k 0
              (Z.to_nat max_retries) w) as [Hres Hlen]; try assumption; try lia.
  split; [exact Hres | rewrite Hlen; lia].
Qed.

Lemma safe_agent_execution_first_decisive_witness :
  let a := mkAgent "ProductionAgent" "You are a reliable production assistant." in
  Z.of_nat 2 < 3
  ∧ fst (Retry.safe_agent_execution a "capital of France?" 3 third_time_lucky)
    = Ok (Some "Paris")
  ∧ Retry.attempts_made (Retry.safe_agent_execution a "capital of France?" 3)
      third_time_lucky = 3%nat.
Proof.
  intros a. split; [reflexivity |].
  apply (safe_agent_execution_first_decisive a "capital of France?" 3
           third_time_lucky 2); [reflexivity | | discriminate].
  intros j Hj. eexists. destruct j as [|[|j]]; [| | lia]; split; reflexivity.
Defined.

(** X18: [safe_agent_execution] runs the agent at most [max_retries]
    times and lets no [Exception] escape: it returns a result or [None],
    and raises only what is no [Exception]; with [max_retries] of zero or
    less it returns [None] without running the agent. *)
Theorem safe_agent_execution_contains_errors {RunResult : Type}
    (a : Agent) (prompt : string) (max_retries : Z) (w : World RunResult) :
  (Retry.attempts_made (Retry.safe_agent_execution a prompt max_retries) w
   ≤ Z.to_nat max_retries)%nat
  ∧ (∀ e, fst (Retry.safe_agent_execution a prompt max_retries w) = Raise e →
          is_Exception e = false)
  ∧ (max_retries ≤ 0 →
     Retry.safe_agent_execution a prompt max_retries w = (Ok None, w)).
Proof.
  split; [| split].
  - unfold Retry.attempts_made, Retry.safe_agent_execution.
    pose proof (safe_loop_bound a prompt max_retries (Retry.range max_retries) w) as H.
    rewrite range_length in H. lia.
  - unfold Retry.safe_agent_execution. generalize (Retry.range max_retries).
    intros attempts. revert w.
    induction attempts as [|attempt rest IH]; intros w e; simpl; [discriminate |].
    destruct (script w (length (calls w)) a prompt) as [r|e']; simpl; [discriminate |].
    unfold is_Exception.
    destruct (exn_cls e') eqn:Hcls; simpl; try discriminate;
      try (destruct (attempt =? max_retries - 1); [discriminate | apply IH]).
    intros [= <-]. rewrite Hcls. reflexivity.
  - intros Hle. unfold Retry.safe_agent_execution, Retry.range.
    replace (Z.to_nat max_retries) with O by lia. reflexivity.
Qed.

(** ** Accepted and created keys *)

Section KeyAcceptanceFacts.
Import KeyValidation.
Context {KeyStatus KeyScope Mgr : Type} `{EqDecision KeyStatus}.
Variable ACTIVE EXPIRED : KeyStatus.
Variable status_value : KeyStatus → string.
Variable scope_value : KeyScope → string.
Variable _validate_key_format : string → bool.
Variable _hash_key : string → string.
Variable _find_key_by_hash : Mgr → string → option (@APIKeyInfo KeyStatus KeyScope).
Variable _log_security_event : string → gmap string value → Mgr → Mgr.
Variable _update_key_status : string → KeyStatus → Mgr → Mgr.
Variable _check_rate_limit : string → Z → Mgr → bool * Mgr.
Variable _check_scope_permission : KeyScope → KeyScope → bool.
Variable _update_usage_metrics : string → Mgr → Mgr.
Variable now : Z.
Variable set_repr : gset string → string.

Let validate := validate_key ACTIVE EXPIRED status_value scope_value
  _validate_key_format _hash_key _find_key_by_hash _log_security_event
  _update_key_status _check_rate_limit _check_scope_permission
  _update_usage_metrics now set_repr.

(** X19: [validate_key] accepts a key only if every check has passed:
    the format is valid, the key is known and active, it has not expired,
    the client address is on a non-empty whitelist, the rate limit
    holds, the scope suffices and the required tools are allowed.  Then
    there is no error message, the usage metrics are updated after the
    rate-limit check, and the key's id, scope, tools and name are
    returned. *)
Theorem validate_key_accepts_only_valid_keys (api_key : string)
    (required_scope : option KeyScope) (required_tools : option (list string))
    (client_ip : option string) (m m' : Mgr) (msg : option string)
    (info : option (gmap string value)) :
  validate api_key required_scope required_tools client_ip m = (true, msg, info, m') →
  ∃ key_info m1,
    _validate_key_format api_key = true
    ∧ _find_key_by_hash m (_hash_key api_key) = Some key_info
    ∧ status key_info = ACTIVE
    ∧ (∀ t, expires_at key_info = Some t → now ≤ t)
    ∧ (∀ ip, client_ip = Some ip → ip ≠ "" → ip_whitelist key_info ≠ [] →
             ip ∈ ip_whitelist key_info)
    ∧ _check_rate_limit (key_id key_info) (rate_limit key_info) m = (true, m1)
    ∧ (∀ s, required_scope = Some s →
            _check_scope_permission (scope key_info) s = true)
    ∧ (∀ required t, required_tools = Some required → allowed_tools key_info ≠ [] →
                     t ∈ required → t ∈ allowed_tools key_info)
    ∧ msg = None
    ∧ m' = _update_usage_metrics (key_id key_info) m1
    ∧ info = Some {[ "key_id" := VStr (key_id key_info);
                     "scope" := VStr (scope_value (scope key_info));
                     "allowed_tools" := VList (VStr <$> allowed_tools key_info);
                     "name" := VStr (name key_info) ]}.
Proof.
  unfold validate, validate_key, denied.
  destruct (_validate_key_format api_key) eqn:Hformat; simpl; [| discriminate].
  destruct (_find_key_by_hash m (_hash_key api_key)) as [key_info|] eqn:Hfind;
    [| discriminate].
  destruct (bool_decide (status key_info = ACTIVE)) eqn:Hstatus; simpl; [| discriminate].
  apply bool_decide_eq_true in Hstatus.
  destruct (match expires_at key_info with Some t => t <? now | None => false end)
    eqn:Hexp; [discriminate |].
  destruct (match ip_whitelist key_info with
            | [] => false
            | _ :: _ =>
                match client_ip with
                | Some ip => negb (bool_decide (ip ∈ ip_whitelist key_info))
                             && negb (String.eqb ip "")
                | None => false
                end
            end) eqn:Hip; [discriminate |].
  destruct (_check_rate_limit (key_id key_info) (rate_limit key_info) m)
    as [within m1] eqn:Hrate.
  destruct within; simpl; [| discriminate].
  destruct (match required_scope with
            | Some rs => negb (_check_scope_permission (scope key_info) rs)
            | None => false
            end) eqn:Hscope; [discriminate |].
  destruct (tool_check required_tools (allowed_tools key_info)) as [missing|] eqn:Htool;
    [discriminate |].
  intros [= <- <- <-]. exists key_info, m1.
  split; [reflexivity |]. split; [reflexivity |]. split; [exact Hstatus |].
  split.
  { intros t Ht. rewrite Ht in Hexp. apply Z.ltb_ge in Hexp. exact Hexp. }
  split.
  { intros ip -> Hne Hwl. destruct (ip_whitelist key_info) as [|x wl] eqn:Hl;
      [congruence |].
    apply andb_false_iff in Hip as [Hin|Hempty].
    - apply negb_false_iff, bool_decide_eq_true in Hin. exact Hin.
    - apply negb_false_iff, String.eqb_eq in Hempty. contradiction. }
  split; [exact Hrate |].
  split.
  { intros s ->. apply negb_false_iff in Hscope. exact Hscope. }
  split; [| repeat split; reflexivity].
  intros required t -> Hallowed Hin.
  destruct (decide (t ∈ allowed_tools key_info)) as [Hyes|Hno]; [exact Hyes |].
  exfalso.
  assert (∃ missing, tool_check (Some required) (allowed_tools key_info) = Some missing)
    as [missing Hm]; [| congruence].
  eexists. apply tool_check_denies. exists required.
  split; [reflexivity |]. split; [intros ->; inversion Hin |].
  split; [exact Hallowed |]. split; [reflexivity |]. exists t. done.
Qed.

(** X20: the three parts of the result of [validate_key] agree: either
    the key is valid, there is no message and the key's data is returned,
    or it is invalid, there is a message and no data. *)
Theorem validate_key_result_shape (api_key : string)
    (required_scope : option KeyScope) (required_tools : option (list string))
    (client_ip : option string) (m : Mgr) :
  let '(valid, msg, info, _) :=
    validate api_key required_scope required_tools client_ip m in
  (valid = true ∧ msg = None ∧ is_Some info)
  ∨ (valid = false ∧ is_Some msg ∧ info = None).
Proof.
  unfold validate, validate_key, denied.
  destruct (_validate_key_format api_key); simpl; [| right; eauto].
  destruct (_find_key_by_hash m (_hash_key api_key)) as [key_info|]; [| right; eauto].
  destruct (bool_decide (status key_info = ACTIVE)); simpl; [| right; eauto].
  destruct (match expires_at key_info with Some t => t <? now | None => false end);
    [right; eauto |].
  match goal with
  | |- context [if ?b then _ else _] => destruct b; [right; eauto |]
  end.
  destruct (_check_rate_limit _ _ m) as [within m1].
  destruct within; simpl; [| right; eauto].
  match goal with
  | |- context [if ?b then _ else _] => destruct b; [right; eauto |]
  end.
  destruct (tool_check required_tools (allowed_tools key_info)); [right; eauto |].
  left. eauto.
Qed.

(** X21: a key as [create_key] builds it without expiry days (none or
    zero) and without a tool list (none or empty) is active, never
    expires and may use every tool: once found under a well-formed key
    string, [validate_key] can refuse it only for the client address,
    the rate limit or the scope. *)
Theorem created_key_defaults (api_key key_id secret name description : string)
    (key_scope : KeyScope) (expires_in_days : option Z)
    (allowed : option (list string)) (limit : Z) (whitelist : option (list string))
    (created clock : Z)
    (required_scope : option KeyScope) (required_tools : option (list string))
    (client_ip : option string) (m : Mgr) :
  let key_info := KeyCreation.create_key_info ACTIVE _hash_key key_id secret name
                    description key_scope expires_in_days allowed limit whitelist
                    created clock in
  expires_in_days = None ∨ expires_in_days = Some 0 →
  allowed = None ∨ allowed = Some [] →
  _validate_key_format api_key = true →
  _find_key_by_hash m (_hash_key api_key) = Some key_info →
  (validate api_key required_scope required_tools client_ip m).1.1.2
  ∈ [None; Some "IP address not authorized"; Some "Rate limit exceeded";
     Some "Insufficient permissions"].
Proof.
  intros key_info Hdays Htools Hformat Hfind.
  assert (expires_at key_info = None) as Hexp
    by (destruct Hdays as [-> | ->]; reflexivity).
  assert (allowed_tools key_info = []) as Hallowed
    by (destruct Htools as [-> | ->]; reflexivity).
  assert (status key_info = ACTIVE) as Hstatus by reflexivity.
  clearbody key_info.
  unfold validate, validate_key, denied. rewrite Hformat, Hfind. simpl.
  rewrite (bool_decide_eq_true_2 _ Hstatus), Hexp, Hallowed. simpl.
  match goal with
  | |- context [if ?b then _ else _] =>
      destruct b; [simpl; apply elem_of_cons; right; constructor |]
  end.
  destruct (_check_rate_limit _ _ m) as [within m1].
  destruct within; simpl; [| do 2 (apply elem_of_cons; right); constructor].
  match goal with
  | |- context [if ?b then _ else _] =>
      destruct b; [simpl; do 3 (apply elem_of_cons; right); constructor |]
  end.
  rewrite tool_check_empty_allowed. simpl. constructor.
Qed.

End KeyAcceptanceFacts.

Lemma validate_key_accepts_only_valid_keys_witness :
  let validate := KeyValidation.validate_key true false
    (λ b : bool, if b then "active" else "expired") (λ _ : unit, "read_only")
    (λ k, PyStr.startswith k "sk_") (λ k, "h:" ++ k) demo_find
    (λ _ _ m, m) (λ _ _ m, m) (λ _ _ m, (true, m)) (λ _ _, true) (λ _ m, m)
    0 demo_set_repr in
  ∃ info,
    validate "sk_live_1" None (Some ["search"]) None tt = (true, None, Some info, tt)
    ∧ ∃ key_info,
        demo_find tt ("h:" ++ "sk_live_1") = Some key_info
        ∧ KeyValidation.status key_info = true
        ∧ ∀ t, t ∈ ["search"] → t ∈ KeyValidation.allowed_tools key_info.
Proof.
  intros validate. eexists.
  assert (validate "sk_live_1" None (Some ["search"]) None tt
          = (true, None,
             Some {[ "key_id" := VStr "key_1"; "scope" := VStr "read_only";
                     "allowed_tools" := VList [VStr "search"];
                     "name" := VStr "demo" ]}, tt)) as Hrun by reflexivity.
  split; [exact Hrun |].
  destruct (validate_key_accepts_only_valid_keys true false
              (λ b : bool, if b then "active" else "expired") (λ _ : unit, "read_only")
              (λ k, PyStr.startswith k "sk_") (λ k, "h:" ++ k) demo_find
              (λ _ _ m, m) (λ _ _ m, m) (λ _ _ m, (true, m)) (λ _ _, true) (λ _ m, m)
              0 demo_set_repr "sk_live_1" None (Some ["search"]) None tt tt None _ Hrun)
    as (key_info & m1 & _ & Hfind & Hstatus & _ & _ & _ & _ & Htools & _).
  exists key_info. split; [exact Hfind |]. split; [exact Hstatus |].
  intros t Ht. apply (Htools ["search"] t eq_refl); [| exact Ht].
  injection Hfind as <-. discriminate.
Defined.

Lemma created_key_defaults_witness :
  let validate := KeyValidation.validate_key true false
    (λ b : bool, if b then "active" else "expired") (λ _ : unit, "read_only")
    (λ k, PyStr.startswith k "sk_") (λ k, "h:" ++ k) demo_find_created
    (λ _ _ m, m) (λ _ _ m, m) (λ _ _ m, (true, m)) (λ _ _, true) (λ _ m, m)
    1000000 demo_set_repr in
  demo_find_created tt ("h:" ++ "sk_live_2") = Some demo_created_key
  ∧ (validate "sk_live_2" None (Some ["search"; "delete"]) None tt).1.1.2
    ∈ [None; Some "IP address not authorized"; Some "Rate limit exceeded";
       Some "Insufficient permissions"].
Proof.
  intros validate. split; [reflexivity |].
  exact (created_key_defaults true false
           (λ b : bool, if b then "active" else "expired") (λ _ : unit, "read_only")
           (λ k, PyStr.startswith k "sk_") (λ k, "h:" ++ k) demo_find_created
           (λ _ _ m, m) (λ _ _ m, m) (λ _ _ m, (true, m)) (λ _ _, true) (λ _ m, m)
           1000000 demo_set_repr
           "sk_live_2" "key_2" "sk_live_2" "fresh" "" tt (Some 0) None 1000 None 0 0
           None (Some ["search"; "delete"]) None tt
           (or_intror eq_refl) (or_introl eq_refl) eq_refl eq_refl).
Defined.

(** ** More on the summary *)

Section SummaryOrderFacts.
Import DataTools.

Lemma sum_bounds (lo hi : Z) (data : list Z) :
  (∀ x, In x data → lo ≤ x ≤ hi) →
  Z.of_nat (length data) * lo ≤ sum data ≤ Z.of_nat (length data) * hi.
Proof.
  induction data as [|x data IH]; intros Hall; [unfold sum; simpl; lia |].
  rewrite sum_cons. specialize (IH (λ y Hy, Hall y (or_intror Hy))).
  pose proof (Hall x (or_introl eq_refl)). simpl length. lia.
Qed.

Lemma sum_permutation (data data' : list Z) : data ≡ₚ data' → sum data = sum data'.
Proof.
  induction 1 as [|x l l' _ IH|x y l|l1 l2 l3 _ IH1 _ IH2].
  - reflexivity.
  - rewrite !sum_cons, IH. reflexivity.
  - rewrite !sum_cons. lia.
  - congruence.
Qed.

(** What [summarize_data] computes on a non-empty list. *)
Lemma summarize_data_stats (x : Z) (rest : list Z) :
  ∃ mn mx average,
    summarize_data (x :: rest)
    = Ok (Stats (Z.of_nat (length (x :: rest))) mn mx average)
    ∧ In mn (x :: rest) ∧ (∀ y, In y (x :: rest) → mn ≤ y)
    ∧ In mx (x :: rest) ∧ (∀ y, In y (x :: rest) → y ≤ mx)
    ∧ average = (Qmake (sum (x :: rest)) 1
                 / Qmake (Z.of_nat (length (x :: rest))) 1)%Q.
Proof.
  pose proof (fold_min_spec rest x) as (Hm1 & Hm2 & Hm3).
  pose proof (fold_max_spec rest x) as (HM1 & HM2 & HM3).
  eexists _, _, _. split.
  - unfold summarize_data, py_min, py_max, true_div, mbind, res_bind, mret, res_ret.
    destruct (Z.eqb_spec (Z.of_nat (length (x :: rest))) 0) as [Heq|_];
      [simpl in Heq; lia | reflexivity].
  - split; [destruct Hm3 as [H|H]; [left; symmetry; exact H | right; exact H] |].
    split; [intros y [<-|Hy]; [exact Hm1 | exact (Hm2 y Hy)] |].
    split; [destruct HM3 as [H|H]; [left; symmetry; exact H | right; exact H] |].
    split; [intros y [<-|Hy]; [exact HM1 | exact (HM2 y Hy)] | reflexivity].
Qed.

End SummaryOrderFacts.





(** ** The tools of the support agents *)

Section ToolFacts.
Import AdvancedTool.

Lemma contains_app_here (needle rest : string) :
  PyStr.startswith (needle ++ rest) needle = true.
Proof.
  induction needle as [|c needle IH]; [destruct rest; reflexivity |].
  rewrite app_cons. simpl. rewrite Ascii.eqb_refl. exact IH.
Qed.

Lemma contains_here (needle hay : string) :
  PyStr.startswith hay needle = true → PyStr.contains needle hay = true.
Proof. intros H. destruct hay; simpl in *; rewrite H; reflexivity. Qed.

Lemma contains_app_r (needle a b : string) :
  PyStr.contains needle b = true → PyStr.contains needle (a ++ b) = true.
Proof.
  intros H. induction a as [|c a IH]; [exact H |].
  rewrite app_cons, contains_cons, IH. apply orb_true_r.
Qed.

(** A text of a class without [@] is one field. *)
Lemma split_on_one_field (p : ascii → bool) (s : string) :
  p "@"%char = false → Validation.all_chars p s = true → split_on "@" s = [s].
Proof.
  intros Hat. induction s as [|c s IH]; [reflexivity |]. simpl.
  intros H. apply andb_prop in H as [Hc Hs].
  destruct (Ascii.eqb_spec c "@") as [->|_]; [congruence |].
  rewrite (IH Hs). reflexivity.
Qed.

Lemma split_on_first_field (p : ascii → bool) (a rest : string) :
  p "@"%char = false → Validation.all_chars p a = true →
  split_on "@" (a ++ "@" ++ rest) = a :: split_on "@" rest.
Proof.
  intros Hat. induction a as [|c a IH]; [reflexivity |].
  rewrite app_cons. simpl. intros H. apply andb_prop in H as [Hc Ha].
  destruct (Ascii.eqb_spec c "@") as [->|_]; [congruence |].
  rewrite (IH Ha). reflexivity.
Qed.

Lemma all_chars_app (p : ascii → bool) (a b : string) :
  Validation.all_chars p (a ++ b) = Validation.all_chars p a && Validation.all_chars p b.
Proof.
  induction a as [|c a IH]; [reflexivity |].
  rewrite app_cons. simpl. rewrite IH, andb_assoc. reflexivity.
Qed.

Lemma all_chars_weaken (p q : ascii → bool) (s : string) :
  (∀ c, p c = true → q c = true) →
  Validation.all_chars p s = true → Validation.all_chars q s = true.
Proof.
  intros Hpq. induction s as [|c s IH]; [reflexivity |]. simpl.
  intros H. apply andb_prop in H as [Hc Hs]. rewrite (Hpq c Hc), (IH Hs). reflexivity.
Qed.

Lemma alpha_is_domain_char (c : ascii) :
  PyStr.is_alpha c = true → HandoffFilters.domain_char c = true.
Proof. unfold HandoffFilters.domain_char. intros ->. reflexivity. Qed.

Lemma startswith_empty (s : string) : PyStr.startswith s "" = true.
Proof. destruct s; reflexivity. Qed.

Lemma startswith_app_l (a b needle : string) :
  PyStr.startswith a needle = true → PyStr.startswith (a ++ b) needle = true.
Proof.
  revert a. induction needle as [|x needle IH]; intros a H; [apply startswith_empty |].
  destruct a as [|c a]; [discriminate |].
  rewrite app_cons, startswith_cons. rewrite startswith_cons in H.
  apply andb_prop in H as [Hx Ha]. rewrite Hx, (IH a Ha). reflexivity.
Qed.

Lemma contains_app_l (needle a b : string) :
  PyStr.contains needle a = true → PyStr.contains needle (a ++ b) = true.
Proof.
  induction a as [|c a IH].
  - destruct needle; [intros _ | discriminate].
    apply contains_here, startswith_empty.
  - rewrite app_cons, !contains_cons. intros H. apply orb_prop in H as [H|H].
    + apply (startswith_app_l (String c a) b) in H. rewrite app_cons in H.
      rewrite H. reflexivity.
    + rewrite (IH H). apply orb_true_r.
Qed.

Lemma contains_at_cons (c : ascii) (s : string) :
  PyStr.contains "@" (String c s) = Ascii.eqb "@" c || PyStr.contains "@" s.
Proof.
  rewrite contains_cons, startswith_cons, startswith_empty, andb_true_r. reflexivity.
Qed.

Lemma split_on_cons (sep c : ascii) (s : string) :
  split_on sep (String c s)
  = if Ascii.eqb c sep then "" :: split_on sep s
    else match split_on sep s with
         | [] => [String c ""]
         | field :: fields => String c field :: fields
         end.
Proof. reflexivity. Qed.

Lemma split_on_nonempty (sep : ascii) (s : string) : split_on sep s ≠ [].
Proof.
  destruct s as [|c s]; [discriminate |]. rewrite split_on_cons.
  destruct (Ascii.eqb c sep); [discriminate |].
  destruct (split_on sep s); discriminate.
Qed.

(** With an [@] in the text there is a second field. *)
Lemma split_on_second_field (s : string) :
  PyStr.contains "@" s = true → is_Some (split_on "@" s !! 1%nat).
Proof.
  induction s as [|c s IH]; [discriminate |].
  rewrite contains_at_cons, split_on_cons, (Ascii.eqb_sym "@" c).
  destruct (Ascii.eqb c "@"); simpl.
  - intros _. pose proof (split_on_nonempty "@" s).
    destruct (split_on "@" s); [contradiction | eexists; reflexivity].
  - intros H. specialize (IH H).
    destruct (split_on "@" s) as [|f fs]; [destruct IH as [? [=]] | exact IH].
Qed.

End ToolFacts.

(** X24: for an address of the shape local-part@domain.tld the tool
    [validate_email] reports a valid format, extracts domain.tld as the
    domain and recommends to proceed. *)
Theorem validate_email_tool_extracts_domain (loc dom tld : string) :
  loc ≠ "" → Validation.all_chars HandoffFilters.local_char loc = true →
  dom ≠ "" → Validation.all_chars HandoffFilters.domain_char dom = true →
  (2 ≤ String.length tld)%nat → Validation.all_chars PyStr.is_alpha tld = true →
  AdvancedTool.validate_email (loc ++ "@" ++ dom ++ "." ++ tld)
  = Ok {[ "is_valid_format" := VBool true;
          "domain" := VStr (dom ++ "." ++ tld);
          "is_common_domain" :=
            VBool (bool_decide (PyStr.lower (dom ++ "." ++ tld)
                                ∈ AdvancedTool.common_domains));
          "recommended_action" := VStr "proceed" ]}.
Proof.
  intros Hl1 Hl2 Hd1 Hd2 Ht1 Ht2.
  assert (Re.matches Validation.pattern (loc ++ "@" ++ dom ++ "." ++ tld) = true)
    as Hvalid.
  { apply pattern_accepts_iff. left. exists loc, dom, tld. done. }
  assert (Validation.all_chars HandoffFilters.domain_char (dom ++ "." ++ tld) = true)
    as Hrest.
  { rewrite all_chars_app, Hd2. simpl.
    exact (all_chars_weaken _ _ tld alpha_is_domain_char Ht2). }
  unfold AdvancedTool.validate_email, AdvancedTool.domain_of.
  rewrite Hvalid.
  rewrite (contains_app_r "@" loc _ (contains_here "@" _ (contains_app_here "@" _))).
  rewrite (split_on_first_field _ loc _ eq_refl Hl2).
  rewrite (split_on_one_field _ _ eq_refl Hrest). reflexivity.
Qed.

Lemma validate_email_tool_extracts_domain_witness :
  AdvancedTool.validate_email ("john.doe" ++ "@" ++ "gmail" ++ "." ++ "com")
  = Ok {[ "is_valid_format" := VBool true;
          "domain" := VStr "gmail.com";
          "is_common_domain" := VBool true;
          "recommended_action" := VStr "proceed" ]}.
Proof.
  rewrite (validate_email_tool_extracts_domain "john.doe" "gmail" "com");
    [| discriminate | reflexivity | discriminate | reflexivity | simpl; lia | reflexivity].
  reflexivity.
Defined.

(** X25: the tool [validate_email] returns for every string (the index
    into the split never fails), and whatever it accepts as a valid
    format [check_identifier_type] classifies as an e-mail address. *)
Theorem validate_email_tool_total (email : string) :
  ∃ d, AdvancedTool.validate_email email = Ok d
       ∧ (d !! "is_valid_format" = Some (VBool true) →
          d !! "recommended_action" = Some (VStr "proceed")
          ∧ AdvancedTool.check_identifier_type email !! "type" = Some (VStr "email")).
Proof.
  unfold AdvancedTool.validate_email, AdvancedTool.domain_of,
    AdvancedTool.check_identifier_type.
  destruct (PyStr.contains "@" email) eqn:Hat.
  - destruct (split_on_second_field email Hat) as [domain ->]. simpl.
    eexists. split; [reflexivity |].
    rewrite lookup_insert_eq. intros [= ->]. split; reflexivity.
  - simpl. eexists. split; [reflexivity |].
    rewrite lookup_insert_eq. intros [= Hvalid]. exfalso.
    apply pattern_accepts_iff in Hvalid.
    assert (∀ address, Validation.email_shape address →
                       PyStr.contains "@" address = true) as Hshape.
    { intros address (loc & dom & tld & -> & _).
      apply contains_app_r, contains_here, contains_app_here. }
    destruct Hvalid as [H|(address & -> & H)].
    + rewrite (Hshape _ H) in Hat. discriminate.
    + rewrite (contains_app_l "@" address Re.newline (Hshape _ H)) in Hat.
      discriminate.
Qed.

(** X26: the product description names the product it was asked for and
    contains the phrase the repository's test looks for, for every
    product id. *)
Theorem product_info_mentions_product (product_id : string) :
  PyStr.contains product_id (ProductInfo.get_product_info product_id) = true
  ∧ PyStr.contains "sample product description"
      (ProductInfo.get_product_info product_id) = true.
Proof.
  unfold ProductInfo.get_product_info, ProductInfo._get_product_info_impl. split.
  - apply contains_app_r, contains_here, contains_app_here.
  - apply contains_app_r, contains_app_r. reflexivity.
Qed.

(** X27: the length validation assigns one of the levels low, medium
    and high, records at most two violations, and the level is low
    exactly when there is no violation. *)
Theorem validate_input_length_levels (input_text : string) :
  let '(violations, risk_level) := AdvancedGuardrails.validate_input_length input_text in
  risk_level ∈ ["low"; "medium"; "high"]
  ∧ (length violations ≤ 2)%nat
  ∧ (risk_level = "low" ↔ violations = []).
Proof.
  unfold AdvancedGuardrails.validate_input_length, AdvancedGuardrails.char_check.
  destruct (10000 <? PyStr.len input_text), (5000 <? PyStr.len input_text),
    (2000 <? PyStr.split_len input_text); simpl;
    (split; [repeat first [apply list_elem_of_here | apply list_elem_of_further] |]);
    (split; [lia |]); split; discriminate || reflexivity.
Qed.
